(** * Memento auth API (azure_adls.py): a shallow embedding

    The program is a FastAPI application with three handlers (signup, signin,
    profile) that keep one JSON file per user in an Azure Data Lake (ADLS
    Gen2) directory.  The handlers and the storage helpers of
    [src/azure_adls.py] are embedded as functions in a state-and-exception
    monad over a model of the lake.

    Conventions:
    - the storage service is a state: file systems, paths, files with
      committed and staged content, and whether the service can be reached;
    - the libraries the program calls ([bcrypt], [json]) are interfaces
      (type classes), and the properties are proved for every
      implementation of them; what a property needs of a library call (the
      hash [hashpw] returned, [checkpw] accepting or not, [loads] reading
      back what [dumps] wrote) is a hypothesis about that call;
    - a [str] is represented by its bytes, so [encode] and [decode] are the
      identity; [json.dumps] writes ASCII only, so [len(content)] in
      [write_user_record] is also the number of bytes appended;
    - the salt [bcrypt.gensalt()] draws is an argument of [signup];
    - request validation (pydantic) happens before a handler runs: a
      handler's arguments are the validated values. *)

From Stdlib Require Import ZArith String Ascii DecimalString.
From stdpp Require Import base option gmap strings list fin_maps.

Local Open Scope Z_scope.
#[local] Set Warnings "-register-all".

(** ** Python values and exceptions *)

(** The values [json.loads] can produce.  A [dict] is a finite map with
    string keys. *)
Inductive pyval :=
| PNone
| PBool (b : bool)
| PInt (n : Z)
| PStr (s : string)
| PList (l : list pyval)
| PDict (d : gmap string pyval).

(** The exceptions that occur in the program.  [HttpResponseError] stands
    for a failure of the storage service other than its two subclasses
    [ResourceNotFoundError] and [ResourceExistsError]. *)
Inductive exn :=
| ResourceNotFoundError
| ResourceExistsError
| HttpResponseError
| HTTPException (status_code : Z) (detail : string)
| ValueError (msg : string)
| KeyError (key : string)
| AttributeError
| ValidationError.

#[global] Instance exn_eq_dec : EqDecision exn.
Proof. solve_decision. Defined.

Inductive outcome (A : Type) :=
| Return (a : A)
| Raise (e : exn).
Arguments Return {A} a.
Arguments Raise {A} e.

(** ** The data lake

    A model of the part of the ADLS Gen2 service the program uses: file
    systems (containers) holding paths; a path is a directory or a file.  A
    file has committed content, which a download returns, and appended data
    that is not visible until it is flushed. *)

Inductive path_entry :=
| Directory
| File (committed staged : string).

Record adls := {
  (** [false]: the service cannot be reached and every request fails with
      a generic [HttpResponseError] *)
  reachable : bool;
  (** whether creating a directory that is present is reported as a
      conflict, or accepted and the directory left as it is *)
  exclusive_create : bool;
  file_systems : gmap string (gmap string path_entry)
}.

Definition set_file_systems (fs : gmap string (gmap string path_entry)) (st : adls) : adls :=
  {| reachable := reachable st;
     exclusive_create := exclusive_create st;
     file_systems := fs |}.

(** Computations: the lake is threaded through, an exception ends the
    computation at the state reached so far. *)
Definition M (A : Type) : Type := adls → outcome A * adls.

Definition ret {A} (a : A) : M A := λ st, (Return a, st).
Definition raise {A} (e : exn) : M A := λ st, (Raise e, st).
Definition bind {A B} (m : M A) (k : A → M B) : M B :=
  λ st, match m st with
        | (Return a, st') => k a st'
        | (Raise e, st') => (Raise e, st')
        end.
Definition lift {A} (o : outcome A) : M A := λ st, (o, st).

(** [try: m except E: h] for the exception class [E]. *)
Definition try_except {A} (m : M A) (E : exn) (h : M A) : M A :=
  λ st, match m st with
        | (Raise e, st') => if decide (e = E) then h st' else (Raise e, st')
        | r => r
        end.

(** [m] loses no file system and leaves the service as reachable as it
    was. *)
Definition keeps {A} (m : adls → A * adls) : Prop :=
  ∀ st,
    reachable (m st).2 = reachable st
    ∧ ∀ fs, is_Some (file_systems st !! fs) → is_Some (file_systems (m st).2 !! fs).

Declare Scope py_scope.
Delimit Scope py_scope with py.
Notation "x <- m ;; k" := (bind m (λ x, k))
  (at level 100, m at next level, right associativity) : py_scope.
Notation "m ;;; k" := (bind m (λ _, k))
  (at level 100, right associativity) : py_scope.
Local Open Scope py_scope.

(** A request to the service: fails when the service is unreachable. *)
Definition request {A} (m : M A) : M A :=
  λ st, if reachable st then m st else (Raise HttpResponseError, st).

(** Clients are handles: a file system name, and a path inside it. *)
Record path_client := { pc_file_system : string; pc_path : string }.

Definition get_directory_client (file_system : string) (directory : string) : path_client :=
  {| pc_file_system := file_system; pc_path := directory |}.

Definition get_file_client (dc : path_client) (file_name : string) : path_client :=
  {| pc_file_system := pc_file_system dc;
     pc_path := pc_path dc +:+ "/" +:+ file_name |}.

Definition lookup_path (pc : path_client) (st : adls) : option path_entry :=
  file_systems st !! pc_file_system pc ≫= λ paths, paths !! pc_path pc.

Definition store_path (pc : path_client) (e : path_entry) (st : adls) : adls :=
  match file_systems st !! pc_file_system pc with
  | Some paths =>
      set_file_systems (<[pc_file_system pc := <[pc_path pc := e]> paths]> (file_systems st)) st
  | None => st
  end.

(** [FileSystemClient.create_file_system] *)
Definition create_file_system (file_system : string) : M unit :=
  request (λ st,
    match file_systems st !! file_system with
    | Some _ => (Raise ResourceExistsError, st)
    | None => (Return tt, set_file_systems (<[file_system := ∅]> (file_systems st)) st)
    end).

(** [DataLakeDirectoryClient.create_directory]; a path that is present is
    left as it is, and reported as [ResourceExistsError] when the service
    creates exclusively. *)
Definition create_directory (dc : path_client) : M unit :=
  request (λ st,
    match file_systems st !! pc_file_system dc with
    | None => (Raise ResourceNotFoundError, st)
    | Some paths =>
        match paths !! pc_path dc with
        | Some _ =>
            if exclusive_create st then (Raise ResourceExistsError, st)
            else (Return tt, st)
        | None => (Return tt, store_path dc Directory st)
        end
    end).

(** [DataLakeFileClient.get_file_properties] (the properties are not
    used by the program) *)
Definition get_file_properties (fc : path_client) : M unit :=
  request (λ st,
    match lookup_path fc st with
    | Some _ => (Return tt, st)
    | None => (Raise ResourceNotFoundError, st)
    end).

(** [DataLakeFileClient.create_file]: an empty file, replacing what the
    path held. *)
Definition create_file (fc : path_client) : M unit :=
  request (λ st,
    match file_systems st !! pc_file_system fc with
    | None => (Raise ResourceNotFoundError, st)
    | Some _ => (Return tt, store_path fc (File "" "") st)
    end).

Definition len (s : string) : Z := Z.of_nat (String.length s).

(** [DataLakeFileClient.append_data(data, offset, length)]: stages [data]
    at [offset], which has to be the end of what the file holds. *)
Definition append_data (fc : path_client) (data : string) (offset length : Z) : M unit :=
  request (λ st,
    match lookup_path fc st with
    | Some (File committed staged) =>
        if decide (offset = len committed + len staged ∧ length = len data)
        then (Return tt, store_path fc (File committed (staged +:+ data)) st)
        else (Raise HttpResponseError, st)
    | Some Directory => (Raise HttpResponseError, st)
    | None => (Raise ResourceNotFoundError, st)
    end).

(** [DataLakeFileClient.flush_data(position)]: commits the staged data;
    [position] is the length of the file after the flush. *)
Definition flush_data (fc : path_client) (position : Z) : M unit :=
  request (λ st,
    match lookup_path fc st with
    | Some (File committed staged) =>
        if decide (position = len committed + len staged)
        then (Return tt, store_path fc (File (committed +:+ staged) "") st)
        else (Raise HttpResponseError, st)
    | Some Directory => (Raise HttpResponseError, st)
    | None => (Raise ResourceNotFoundError, st)
    end).

(** [DataLakeFileClient.download_file().readall()] *)
Definition download_file_readall (fc : path_client) : M string :=
  request (λ st,
    match lookup_path fc st with
    | Some (File committed _) => (Return committed, st)
    | Some Directory => (Raise HttpResponseError, st)
    | None => (Raise ResourceNotFoundError, st)
    end).

(** ** The libraries the program calls *)

(** [bcrypt.hashpw(password, salt)] and [bcrypt.checkpw(password, hashed)],
    on byte strings.  Both can raise ([ValueError] for a salt or hash that
    does not parse). *)
Class Bcrypt := {
  hashpw : string → string → outcome string;
  checkpw : string → string → outcome bool
}.

(** [json.dumps] and [json.loads] ([JSONDecodeError] is a [ValueError]). *)
Class Json := {
  dumps : pyval → string;
  loads : string → outcome pyval
}.

(** [datetime.date] and its [str()], the ISO 8601 form [YYYY-MM-DD]. *)
Record date := { year : nat; month : nat; day : nat }.

Fixpoint zeros (n : nat) : string :=
  match n with O => "" | S n => "0" +:+ zeros n end.

(** ["%0<width>d" % n] *)
Definition zfill (width : nat) (n : nat) : string :=
  let s := NilZero.string_of_uint (Nat.to_uint n) in
  zeros (width - String.length s) +:+ s.

Definition date_str (d : date) : string :=
  zfill 4 (year d) +:+ "-" +:+ zfill 2 (month d) +:+ "-" +:+ zfill 2 (day d).

(** [str.encode("utf-8")] and [bytes.decode("utf-8")]: a [str] is
    represented by its UTF-8 bytes, so both are the identity on strings; a
    value that is not a [str] has no [encode]. *)
Definition encode (v : pyval) : outcome string :=
  match v with
  | PStr s => Return s
  | _ => Raise AttributeError
  end.

(** [v.get(key, default)]: only a [dict] has [get]. *)
Definition get (v : pyval) (key : string) (default : pyval) : outcome pyval :=
  match v with
  | PDict d => Return (match d !! key with Some x => x | None => default end)
  | _ => Raise AttributeError
  end.

(** ** Pydantic models *)

Module SignupRequest.
Record t := { name : string; email : string; password : string; dob : date }.
End SignupRequest.

Module SigninRequest.
Record t := { email : string; password : string }.
End SigninRequest.

Module SigninResponse.
Record t := { token : string }.
Definition body (r : t) : gmap string pyval := {[ "token" := PStr (token r) ]}.
End SigninResponse.

Module ProfileResponse.
Record t := { name : string; email : string; dob : string }.
(** [ProfileResponse(name=..., email=..., dob=...)]: the [str] fields
    take a [str] only; [email] is the handler's validated parameter. *)
Definition init (name : pyval) (email : string) (dob : pyval) : outcome t :=
  match name, dob with
  | PStr n, PStr d => Return {| name := n; email := email; dob := d |}
  | _, _ => Raise ValidationError
  end.
Definition body (r : t) : gmap string pyval :=
  {[ "name" := PStr (name r); "email" := PStr (email r); "dob" := PStr (dob r) ]}.
End ProfileResponse.

(** ** The program *)

Section Program.
Context `{!Bcrypt, !Json}.

Definition FILE_SYSTEM_NAME : string := "memento-users".
Definition DIRECTORY_NAME : string := "users".

Definition file_system_client : string := FILE_SYSTEM_NAME.
Definition directory_client : path_client :=
  get_directory_client file_system_client DIRECTORY_NAME.

Definition ensure_filesystem_and_directory : M unit :=
  try_except (create_file_system file_system_client) ResourceExistsError (ret tt);;;
  try_except (create_directory directory_client) ResourceExistsError (ret tt).

Definition user_file_client (email : string) : path_client :=
  let file_name := email +:+ ".json" in
  get_file_client directory_client file_name.

Definition user_exists (email : string) : M bool :=
  let fc := user_file_client email in
  try_except (get_file_properties fc;;; ret true)
    ResourceNotFoundError (ret false).

(** [data] is a dict of [str] fields, as [signup] builds it. *)
Definition write_user_record (data : gmap string string) : M unit :=
  email <- lift (match data !! "email" with
                 | Some e => Return e
                 | None => Raise (KeyError "email")
                 end);;
  let fc := user_file_client email in
  let content := dumps (PDict (PStr <$> data)) in
  create_file fc;;;
  append_data fc content 0 (len content);;;
  flush_data fc (len content).

Definition read_user_record (email : string) : M pyval :=
  let fc := user_file_client email in
  raw <- download_file_readall fc;;
  lift (loads raw).

Definition health_check : M (gmap string pyval) :=
  ret {[ "status" := PStr "ok" ]}.

(** [salt] is what [bcrypt.gensalt()] draws for this request. *)
Definition signup (req : SignupRequest.t) (salt : string) : M (gmap string pyval) :=
  taken <- user_exists (SignupRequest.email req);;
  if (taken : bool) then raise (HTTPException 400 "User already exists") else
  pw_hash <- lift (hashpw (SignupRequest.password req) salt);;
  let record : gmap string string :=
    {[ "name" := SignupRequest.name req;
       "email" := SignupRequest.email req;
       "dob" := date_str (SignupRequest.dob req);
       "password_hash" := pw_hash ]} in
  write_user_record record;;;
  ret {[ "ok" := PBool true ]}.

Definition signin (req : SigninRequest.t) : M SigninResponse.t :=
  stored <- try_except (read_user_record (SigninRequest.email req))
              ResourceNotFoundError
              (raise (HTTPException 401 "Invalid credentials"));;
  h <- lift (get stored "password_hash" (PStr ""));;
  stored_hash <- lift (encode h);;
  ok <- lift (checkpw (SigninRequest.password req) stored_hash);;
  if negb ok then raise (HTTPException 401 "Invalid credentials") else
  let token := "dummy-token-for-" +:+ SigninRequest.email req in
  ret {| SigninResponse.token := token |}.

Definition get_profile (email : string) : M ProfileResponse.t :=
  record <- try_except (read_user_record email)
              ResourceNotFoundError
              (raise (HTTPException 404 "Profile not found"));;
  name <- lift (get record "name" (PStr ""));;
  dob <- lift (get record "dob" (PStr ""));;
  lift (ProfileResponse.init name email dob).

(** The record [signup] builds for a request, once the password is
    hashed, and the file [write_user_record] leaves for a record. *)
Definition record_of (req : SignupRequest.t) (pw_hash : string) : gmap string string :=
  {[ "name" := SignupRequest.name req;
     "email" := SignupRequest.email req;
     "dob" := date_str (SignupRequest.dob req);
     "password_hash" := pw_hash ]}.

Definition written (data : gmap string string) : path_entry :=
  File (dumps (PDict (PStr <$> data))) "".

(** *** The HTTP boundary

    What FastAPI sends for a handler's result: the returned model as a
    JSON object with status 200, an [HTTPException] as its status code with
    the body [{"detail": ...}], any other exception as a bare 500. *)

Record http_response := { status : Z; content : pyval }.

Definition respond {A} (body : A → gmap string pyval) (o : outcome A) : http_response :=
  match o with
  | Return a => {| status := 200; content := PDict (body a) |}
  | Raise (HTTPException status_code detail) =>
      {| status := status_code; content := PDict {[ "detail" := PStr detail ]} |}
  | Raise _ => {| status := 500; content := PStr "Internal Server Error" |}
  end.

Inductive http_request :=
| GET_health
| POST_signup (req : SignupRequest.t) (salt : string)
| POST_signin (req : SigninRequest.t)
| GET_profile (email : string).

Definition serve {A} (body : A → gmap string pyval) (m : M A) : adls → http_response * adls :=
  λ st, let '(o, st') := m st in (respond body o, st').

(** [m] run [n] times in a row. *)
Fixpoint times (n : nat) (m : M unit) : M unit :=
  match n with
  | O => ret tt
  | S n => m;;; times n m
  end.

Definition app (r : http_request) : adls → http_response * adls :=
  match r with
  | GET_health => serve id health_check
  | POST_signup req salt => serve id (signup req salt)
  | POST_signin req => serve SigninResponse.body (signin req)
  | GET_profile email => serve ProfileResponse.body (get_profile email)
  end.

(** The lake after the application served the requests [rs], in order. *)
Fixpoint serve_all (rs : list http_request) (st : adls) : adls :=
  match rs with
  | [] => st
  | r :: rs => serve_all rs (app r st).2
  end.

(** The keys of a response body. *)
Definition fields (r : http_response) : gset string :=
  match content r with
  | PDict d => dom d
  | _ => ∅
  end.

End Program.

(** ** Reference implementations of the libraries

    Small executable stand-ins, used to run the program on concrete
    requests. *)

Module Demo.

Definition dquote : ascii := "034"%char.
Definition backslash : ascii := "\"%char.

Fixpoint escape (s : string) : string :=
  match s with
  | EmptyString => EmptyString
  | String c r =>
      if decide (c = dquote ∨ c = backslash)
      then String backslash (String c (escape r))
      else String c (escape r)
  end.

Definition quote (s : string) : string :=
  String dquote (escape s +:+ String dquote EmptyString).

Definition member (kv : string * pyval) : string :=
  quote kv.1 +:+ ": " +:+
  match kv.2 with
  | PStr s => quote s
  | _ => "null"
  end.

Fixpoint join (sep : string) (l : list string) : string :=
  match l with
  | [] => ""
  | [x] => x
  | x :: l => x +:+ sep +:+ join sep l
  end.

(** A JSON object of string members; other values are not needed. *)
Definition dumps (v : pyval) : string :=
  match v with
  | PDict d => "{" +:+ join ", " (member <$> map_to_list d) +:+ "}"
  | PStr s => quote s
  | _ => "null"
  end.

(** Reads a string literal after its opening quote: the text and the rest
    of the input. *)
Fixpoint unquote (s : string) : option (string * string) :=
  match s with
  | EmptyString => None
  | String c r =>
      if decide (c = dquote) then Some (EmptyString, r)
      else if decide (c = backslash) then
        match r with
        | String c' r' => '(t, rest) ← unquote r'; Some (String c' t, rest)
        | EmptyString => None
        end
      else '(t, rest) ← unquote r; Some (String c t, rest)
  end.

(** [expect p s]: [s] without its prefix [p]. *)
Fixpoint expect (p : string) (s : string) : option string :=
  match p, s with
  | EmptyString, _ => Some s
  | String a p, String b s => if decide (a = b) then expect p s else None
  | String _ _, EmptyString => None
  end.

(** A string literal at the head of the input, and the rest. *)
Definition read_string (s : string) : option (string * string) :=
  expect (String dquote EmptyString) s ≫= unquote.

(** [members fuel s]: the members of an object after its opening brace. *)
Fixpoint members (fuel : nat) (s : string) : option (list (string * pyval)) :=
  match fuel with
  | O => None
  | S fuel =>
      '(k, s) ← read_string s;
      s ← expect ": " s;
      '(v, s) ← read_string s;
      if decide (s = "}") then Some [(k, PStr v)]
      else s ← expect ", " s;
           l ← members fuel s;
           Some ((k, PStr v) :: l)
  end.

(** The values of these members are strings. *)
Definition strings (l : list (string * pyval)) : Prop :=
  ∀ kv, kv ∈ l → ∃ s, kv.2 = PStr s.

Definition loads (s : string) : outcome pyval :=
  if decide (s = "{}") then Return (PDict ∅)
  else match expect "{" s ≫= members (String.length s) with
       | Some l => Return (PDict (list_to_map (reverse l)))
       | None => Raise (ValueError "Expecting value")
       end.

Definition json : Json := Build_Json dumps loads.

(** A stand-in with the interface of bcrypt: a salt is a prefix [$2b$12$]
    and 22 more characters, a hash is the salt followed by a digest of
    salt and password.  The digest is a checksum, not a one-way function. *)
Fixpoint checksum (s : string) (acc : N) : N :=
  match s with
  | EmptyString => acc
  | String c r => checksum r ((acc * 31 + N_of_ascii c) mod 65521)%N
  end.

Definition digest (settings password : string) : string :=
  let s := NilZero.string_of_uint (N.to_uint (checksum (settings +:+ password) 7)) in
  zeros (31 - String.length s) +:+ s.

Definition hashpw (password salt : string) : outcome string :=
  if String.prefix "$2b$12$" salt && bool_decide (29 ≤ String.length salt)%nat
  then let settings := String.substring 0 29 salt in
       Return (settings +:+ digest settings password)
  else Raise (ValueError "Invalid salt").

Definition checkpw (password hashed_password : string) : outcome bool :=
  match hashpw password hashed_password with
  | Return h => Return (bool_decide (h = hashed_password))
  | Raise e => Raise e
  end.

Definition bcrypt : Bcrypt := Build_Bcrypt hashpw checkpw.

(** A lake after startup, with no user yet; a request and a salt. *)
Definition lake : adls :=
  {| reachable := true;
     exclusive_create := true;
     file_systems := {[ "memento-users" := {[ "users" := Directory ]} ]} |}.

Definition ann : SignupRequest.t :=
  {| SignupRequest.name := "Ann";
     SignupRequest.email := "a@x.com";
     SignupRequest.password := "secret1";
     SignupRequest.dob := {| year := 1990; month := 1; day := 1 |} |}.

Definition salt : string := "$2b$12$abcdefghijklmnopqrstuv".

(** The hash [hashpw] gives Ann's password with this salt. *)
Definition ann_hash : string :=
  "$2b$12$abcdefghijklmnopqrstuv0000000000000000000000000008170".

Definition ann_signin : SigninRequest.t :=
  {| SigninRequest.email := "a@x.com"; SigninRequest.password := "secret1" |}.

Definition ann_wrong : SigninRequest.t :=
  {| SigninRequest.email := "a@x.com"; SigninRequest.password := "wrong" |}.

Definition cy_signin : SigninRequest.t :=
  {| SigninRequest.email := "c@x.com"; SigninRequest.password := "secret1" |}.

(** A record with neither [dob] nor [password_hash], and a lake whose
    file for [c@x.com] holds it. *)
Definition partial_record : gmap string pyval :=
  {[ "name" := PStr "Cy"; "email" := PStr "cy@elsewhere.org" ]}.

Definition lake_partial : adls :=
  {| reachable := true;
     exclusive_create := true;
     file_systems :=
       {[ "memento-users" :=
            {[ "users" := Directory;
               "users/c@x.com.json" := File (dumps (PDict partial_record)) "" ]} ]} |}.

(** The lake after Ann signed up. *)
Definition lake_ann : adls := (@signup bcrypt json ann salt lake).2.

(** A storage account in which nothing was created yet. *)
Definition fresh_account : adls :=
  {| reachable := true; exclusive_create := false; file_systems := ∅ |}.

End Demo.

(** ** Startup: configuration and lifespan *)

(** What [get_service_client] gives: a client, or the [RuntimeError] that
    stops the process at import. *)
Inductive configured (A : Type) :=
| Client (client : A)
| RuntimeError (msg : string).
Arguments Client {A} client.
Arguments RuntimeError {A} msg.

(** [os.getenv(name)] in the environment [environ]: [None] when unset. *)
Definition getenv (environ : gmap string string) (name : string) : option string :=
  environ !! name.

(** The truth value of an optional [str]: [None] and [""] are false. *)
Definition truthy (o : option string) : bool :=
  match o with
  | Some s => negb (String.eqb s "")
  | None => false
  end.

(** [a or b] *)
Definition or_else (a b : option string) : option string :=
  if truthy a then a else b.

Definition MISSING_CONNECTION_STRING : string :=
  "Storage connection string is missing. Set " +:+
  "AZURE_STORAGE_CONNECTION_STRING in App Service Environment variables.".

(** [from_connection_string] is [DataLakeServiceClient.from_connection_string]. *)
Definition get_service_client {C} (from_connection_string : string → C)
    (environ : gmap string string) : configured C :=
  let conn_str :=
    or_else (getenv environ "AZURE_STORAGE_CONNECTION_STRING")
            (getenv environ "CUSTOMCONNSTR_AZURE_STORAGE_CONNECTION_STRING") in
  if negb (truthy conn_str) then RuntimeError MISSING_CONNECTION_STRING
  else Client (from_connection_string (default "" conn_str)).

(** [lifespan], up to its [yield]: what runs before the first request. *)
Definition lifespan : M unit := ensure_filesystem_and_directory.

#[global] Instance path_client_eq_dec : EqDecision path_client.
Proof. solve_decision. Defined.

(** [m] reads the lake and leaves it as it is, whatever it returns. *)
Definition reads_only {A} (m : M A) : Prop := ∀ st, (m st).2 = st.

(** [o] is not an [HTTPException]: what holds of every result of a
    library call, since only the handlers raise [HTTPException]. *)
Definition no_http_exception {A} (o : outcome A) : Prop :=
  ∀ status_code detail, o ≠ Raise (HTTPException status_code detail).

(** More lakes and environments to run the program on. *)
Module Cases.

(** Ann has signed up, and the service cannot be reached. *)
Definition lake_down : adls :=
  {| reachable := false;
     exclusive_create := exclusive_create Demo.lake_ann;
     file_systems := file_systems Demo.lake_ann |}.

(** The file of [g@x.com] does not hold JSON. *)
Definition lake_garbled : adls :=
  {| reachable := true;
     exclusive_create := true;
     file_systems :=
       {[ "memento-users" :=
            {[ "users" := Directory;
               "users/g@x.com.json" := File "not json" "" ]} ]} |}.

(** Another file system with a path named like a user's file. *)
Definition lake_shared : adls :=
  {| reachable := true;
     exclusive_create := true;
     file_systems :=
       {[ "backups" := {[ "users/a@x.com.json" := File "kept" "staged" ]} ]} |}.

Definition app_settings : gmap string string :=
  {[ "AZURE_STORAGE_CONNECTION_STRING" := "";
     "CUSTOMCONNSTR_AZURE_STORAGE_CONNECTION_STRING" := "UseDevelopmentStorage=true" ]}.

Definition bob : SignupRequest.t :=
  {| SignupRequest.name := "Bob";
     SignupRequest.email := "b@x.com";
     SignupRequest.password := "hunter2";
     SignupRequest.dob := {| year := 1985; month := 12; day := 31 |} |}.

Definition requests : list http_request :=
  [ POST_signup bob Demo.salt;
    POST_signup Demo.ann "$2b$12$zyxwvutsrqponmlkjihgfe";
    POST_signin Demo.ann_wrong;
    GET_profile "a@x.com";
    GET_health ].

End Cases.

(** A stand-in with bcrypt's bound on the password: [hashpw], and
    [checkpw] through it, raise [ValueError] for a password of more than 72
    bytes, as bcrypt 5 does, and are the stand-in above otherwise. *)
Module Bounded.

Definition TOO_LONG : string :=
  "password cannot be longer than 72 bytes, " +:+
  "truncate manually if necessary (e.g. my_password[:72])".

Definition hashpw (password salt : string) : outcome string :=
  if bool_decide (72 < String.length password)%nat
  then Raise (ValueError TOO_LONG)
  else Demo.hashpw password salt.

Definition checkpw (password hashed_password : string) : outcome bool :=
  match hashpw password hashed_password with
  | Return h => Return (bool_decide (h = hashed_password))
  | Raise e => Raise e
  end.

Definition bcrypt : Bcrypt := Build_Bcrypt hashpw checkpw.

(** 73 bytes *)
Definition long_password : string :=
  "correct-horse-battery-staple-correct-horse-battery-staple-correct-horse-b".

(** A valid payload, for an email that has no file in [Demo.lake] or
    [Demo.lake_ann]. *)
Definition dee : SignupRequest.t :=
  {| SignupRequest.name := "Dee";
     SignupRequest.email := "d@x.com";
     SignupRequest.password := long_password;
     SignupRequest.dob := {| year := 2001; month := 2; day := 28 |} |}.



End Bounded.

(** * Properties *)

(** ** The lake *)

Lemma reachable_store_path pc e st : reachable (store_path pc e st) = reachable st.
Proof. unfold store_path. by destruct (file_systems st !! pc_file_system pc). Qed.

Lemma lookup_path_store_path_eq pc e st :
  is_Some (file_systems st !! pc_file_system pc) →
  lookup_path pc (store_path pc e st) = Some e.
Proof.
  intros [paths Hfs]. unfold lookup_path, store_path. rewrite Hfs. simpl.
  rewrite lookup_insert_eq. simpl. by rewrite lookup_insert_eq.
Qed.

Lemma store_path_store_path pc e1 e2 st :
  store_path pc e2 (store_path pc e1 st) = store_path pc e2 st.
Proof.
  unfold store_path. destruct (file_systems st !! pc_file_system pc) eqn:Hfs; simpl.
  - rewrite lookup_insert_eq. unfold set_file_systems. simpl.
    by rewrite !insert_insert_eq.
  - by rewrite Hfs.
Qed.

Lemma lookup_path_store_path_ne pc pc' e st :
  pc ≠ pc' → lookup_path pc' (store_path pc e st) = lookup_path pc' st.
Proof.
  intros Hne. unfold lookup_path, store_path.
  destruct (file_systems st !! pc_file_system pc) eqn:Hfs; [|done]. simpl.
  destruct (decide (pc_file_system pc = pc_file_system pc')) as [Heq|Hfsne].
  - rewrite <- Heq, lookup_insert_eq, Hfs. simpl.
    rewrite lookup_insert_ne; [done|].
    intros Hp. destruct pc, pc'; simpl in *; congruence.
  - by rewrite lookup_insert_ne.
Qed.

Lemma lookup_path_is_Some pc st :
  is_Some (lookup_path pc st) → is_Some (file_systems st !! pc_file_system pc).
Proof.
  unfold lookup_path. destruct (file_systems st !! pc_file_system pc); [eauto|].
  simpl. by intros [? ?].
Qed.

(** *** What every computation keeps *)

Create HintDb keeps discriminated.

Lemma keeps_store_path pc e st fs :
  is_Some (file_systems st !! fs) → is_Some (file_systems (store_path pc e st) !! fs).
Proof.
  intros Hfs. unfold store_path.
  destruct (file_systems st !! pc_file_system pc) eqn:Hpc; [|done]. simpl.
  destruct (decide (pc_file_system pc = fs)) as [->|Hne].
  - rewrite lookup_insert_eq. eauto.
  - by rewrite lookup_insert_ne.
Qed.

Lemma keeps_ret {A} (a : A) : keeps (ret a).
Proof. by intros st. Qed.

Lemma keeps_raise {A} e : keeps (@raise A e).
Proof. by intros st. Qed.

Lemma keeps_lift {A} (o : outcome A) : keeps (lift o).
Proof. by intros st. Qed.

Lemma keeps_bind {A B} (m : M A) (k : A → M B) :
  keeps m → (∀ a, keeps (k a)) → keeps (bind m k).
Proof.
  intros Hm Hk st. unfold bind. destruct (Hm st) as [Hr Hfs].
  destruct (m st) as [[a|e] st1]; simpl in *; [|done].
  destruct (Hk a st1) as [Hr1 Hfs1]. split; [congruence|auto].
Qed.

Lemma keeps_try_except {A} (m : M A) E (h : M A) :
  keeps m → keeps h → keeps (try_except m E h).
Proof.
  intros Hm Hh st. unfold try_except. destruct (Hm st) as [Hr Hfs].
  destruct (m st) as [[a|e] st1]; simpl in *; [done|].
  destruct (decide (e = E)); [|done].
  destruct (Hh st1) as [Hr1 Hfs1]. split; [congruence|auto].
Qed.

Lemma keeps_request {A} (m : M A) :
  (∀ st, reachable st = true →
     reachable (m st).2 = reachable st
     ∧ ∀ fs, is_Some (file_systems st !! fs) → is_Some (file_systems (m st).2 !! fs)) →
  keeps (request m).
Proof.
  intros Hm st. unfold request. destruct (reachable st) eqn:Hr; [|done].
  destruct (Hm st Hr) as [Hr1 Hfs1]. split; [congruence|auto].
Qed.

Ltac keeps_primitive :=
  apply keeps_request; intros st _;
  repeat match goal with
         | |- context [match ?x with _ => _ end] => destruct x
         end;
  simpl; (split; [by rewrite ?reachable_store_path|]);
  intros fs Hfs; auto using keeps_store_path.

Lemma keeps_create_file_system file_system : keeps (create_file_system file_system).
Proof.
  apply keeps_request; intros st _.
  destruct (file_systems st !! file_system) eqn:Hfs; simpl; [done|].
  split; [done|]. intros fs Hsome.
  destruct (decide (file_system = fs)) as [->|Hne].
  - rewrite lookup_insert_eq. eauto.
  - by rewrite lookup_insert_ne.
Qed.

Lemma keeps_create_directory dc : keeps (create_directory dc).
Proof. keeps_primitive. Qed.

Lemma keeps_get_file_properties fc : keeps (get_file_properties fc).
Proof. keeps_primitive. Qed.

Lemma keeps_create_file fc : keeps (create_file fc).
Proof. keeps_primitive. Qed.

Lemma keeps_append_data fc data offset length : keeps (append_data fc data offset length).
Proof. keeps_primitive. Qed.

Lemma keeps_flush_data fc position : keeps (flush_data fc position).
Proof. keeps_primitive. Qed.

Lemma keeps_download_file_readall fc : keeps (download_file_readall fc).
Proof. keeps_primitive. Qed.

#[global] Hint Resolve keeps_ret keeps_raise keeps_lift keeps_bind keeps_try_except
  keeps_create_file_system keeps_create_directory keeps_get_file_properties
  keeps_create_file keeps_append_data keeps_flush_data keeps_download_file_readall
  : keeps.

Lemma string_length_app (s t : string) :
  String.length (s +:+ t) = (String.length s + String.length t)%nat.
Proof. induction s as [|c s IH]; simpl; [done|]. by rewrite IH. Qed.

Lemma string_app_inj_l (s1 s2 t : string) : s1 +:+ t = s2 +:+ t → s1 = s2.
Proof.
  intros Heq.
  assert (Hlen : String.length s1 = String.length s2).
  { apply (f_equal String.length) in Heq. rewrite !string_length_app in Heq. lia. }
  revert s2 Heq Hlen. induction s1 as [|c s1 IH]; intros [|c2 s2]; simpl; try done.
  intros [= -> ?] [= ?]. f_equal. auto.
Qed.

Section Properties.
Context `{!Bcrypt, !Json}.

(** Distinct emails have distinct files. *)
Lemma user_file_client_inj email1 email2 :
  user_file_client email1 = user_file_client email2 → email1 = email2.
Proof.
  unfold user_file_client, get_file_client. simpl. intros [= Heq].
  exact (string_app_inj_l email1 email2 ".json" Heq).
Qed.

(** ** The handlers keep the file systems *)

Lemma keeps_ensure_filesystem_and_directory : keeps ensure_filesystem_and_directory.
Proof. unfold ensure_filesystem_and_directory. auto 10 with keeps. Qed.

Lemma keeps_user_exists email : keeps (user_exists email).
Proof. unfold user_exists. auto 10 with keeps. Qed.

Lemma keeps_write_user_record data : keeps (write_user_record data).
Proof. unfold write_user_record. auto 10 with keeps. Qed.

Lemma keeps_read_user_record email : keeps (read_user_record email).
Proof. unfold read_user_record. auto 10 with keeps. Qed.

Lemma keeps_signup req salt : keeps (signup req salt).
Proof.
  unfold signup. apply keeps_bind; [apply keeps_user_exists|].
  intros [|]; [apply keeps_raise|].
  apply keeps_bind; [apply keeps_lift|]. intros pw_hash.
  apply keeps_bind; [apply keeps_write_user_record|]. intros _. apply keeps_ret.
Qed.

Lemma keeps_signin req : keeps (signin req).
Proof.
  unfold signin. apply keeps_bind.
  { apply keeps_try_except; [apply keeps_read_user_record|apply keeps_raise]. }
  intros stored. apply keeps_bind; [apply keeps_lift|]. intros h.
  apply keeps_bind; [apply keeps_lift|]. intros stored_hash.
  apply keeps_bind; [apply keeps_lift|]. intros [|]; simpl; auto with keeps.
Qed.

Lemma keeps_get_profile email : keeps (get_profile email).
Proof.
  unfold get_profile. apply keeps_bind.
  { apply keeps_try_except; [apply keeps_read_user_record|apply keeps_raise]. }
  auto 10 with keeps.
Qed.

Lemma keeps_serve {A} (body : A → gmap string pyval) (m : M A) :
  keeps m → keeps (serve body m).
Proof. intros Hm st. unfold serve. specialize (Hm st). by destruct (m st). Qed.

Lemma keeps_app r : keeps (app r).
Proof.
  destruct r; apply keeps_serve.
  - exact (keeps_ret _).
  - apply keeps_signup.
  - apply keeps_signin.
  - apply keeps_get_profile.
Qed.

(** After startup on a reachable service the file system is in place, and
    it stays in place whatever requests the application serves: the
    standing assumptions of the handlers' properties hold throughout. *)
Lemma file_system_in_place st0 st rs :
  reachable st0 = true →
  ensure_filesystem_and_directory st0 = (Return tt, st) →
  reachable (serve_all rs st) = true
  ∧ is_Some (file_systems (serve_all rs st) !! FILE_SYSTEM_NAME).
Proof.
  intros Hr0 Hstart.
  assert (Hr : reachable st = true).
  { destruct (keeps_ensure_filesystem_and_directory st0) as [Hr _].
    rewrite Hstart in Hr. simpl in Hr. congruence. }
  assert (Hfs : is_Some (file_systems st !! FILE_SYSTEM_NAME)).
  { revert Hstart. unfold ensure_filesystem_and_directory, bind, try_except,
      create_file_system, request, ret. rewrite Hr0.
    change file_system_client with FILE_SYSTEM_NAME.
    destruct (file_systems st0 !! FILE_SYSTEM_NAME) as [paths|] eqn:Hfs0;
      cbv beta iota zeta; rewrite ?decide_True by done; intros Hdir.
    - destruct (keeps_try_except (create_directory directory_client)
                  ResourceExistsError (ret tt)
                  (keeps_create_directory _) (keeps_ret _) st0) as [_ Hk].
      unfold try_except, ret in Hk. rewrite Hdir in Hk. apply Hk. eauto.
    - set (st1 := set_file_systems _ st0) in *.
      destruct (keeps_try_except (create_directory directory_client)
                  ResourceExistsError (ret tt)
                  (keeps_create_directory _) (keeps_ret _) st1) as [_ Hk].
      unfold try_except, ret in Hk. rewrite Hdir in Hk. apply Hk.
      unfold st1. simpl. rewrite lookup_insert_eq. eauto. }
  clear Hstart Hr0. revert st Hr Hfs. induction rs as [|r rs IH]; intros st Hr Hfs.
  - done.
  - simpl. destruct (keeps_app r st) as [Hr1 Hfs1].
    apply IH; [congruence|auto].
Qed.

(** ** The storage helpers, evaluated *)

Lemma user_exists_eval email st :
  reachable st = true →
  user_exists email st =
    (Return (bool_decide (is_Some (lookup_path (user_file_client email) st))), st).
Proof.
  intros Hr. unfold user_exists, try_except, bind, get_file_properties, request, ret.
  rewrite Hr. destruct (lookup_path _ st) as [e|].
  - by rewrite bool_decide_true by eauto.
  - by rewrite bool_decide_false by (by intros [? ?]).
Qed.

Lemma user_exists_propagates email st e st' :
  get_file_properties (user_file_client email) st = (Raise e, st') →
  e ≠ ResourceNotFoundError →
  user_exists email st = (Raise e, st').
Proof.
  intros Hget Hne. unfold user_exists, try_except, bind. rewrite Hget.
  by destruct (decide (e = ResourceNotFoundError)).
Qed.

Lemma write_user_record_eval data email st :
  reachable st = true →
  is_Some (file_systems st !! FILE_SYSTEM_NAME) →
  data !! "email" = Some email →
  write_user_record data st =
    (Return tt,
     store_path (user_file_client email) (File (dumps (PDict (PStr <$> data))) "") st).
Proof.
  intros Hr Hfs Hemail. unfold write_user_record, bind, lift. rewrite Hemail.
  set (fc := user_file_client email). set (content := dumps _).
  assert (Hfs' : is_Some (file_systems st !! pc_file_system fc)) by done.
  unfold create_file, request. rewrite Hr.
  destruct Hfs' as [paths Hpaths]. rewrite Hpaths.
  unfold append_data, request. rewrite reachable_store_path, Hr.
  rewrite lookup_path_store_path_eq by eauto.
  rewrite decide_True by done.
  unfold flush_data, request. rewrite reachable_store_path, reachable_store_path, Hr.
  rewrite store_path_store_path.
  rewrite lookup_path_store_path_eq by eauto.
  rewrite decide_True by reflexivity.
  by rewrite store_path_store_path.
Qed.

Lemma read_user_record_eval email st committed staged :
  reachable st = true →
  lookup_path (user_file_client email) st = Some (File committed staged) →
  read_user_record email st = (loads committed, st).
Proof.
  intros Hr Hfile. unfold read_user_record, bind, download_file_readall, request, lift.
  by rewrite Hr, Hfile.
Qed.

Lemma read_user_record_not_found email st :
  reachable st = true →
  lookup_path (user_file_client email) st = None →
  read_user_record email st = (Raise ResourceNotFoundError, st).
Proof.
  intros Hr Hfile. unfold read_user_record, bind, download_file_readall, request.
  by rewrite Hr, Hfile.
Qed.

Lemma write_user_record_written data email st :
  reachable st = true →
  is_Some (file_systems st !! FILE_SYSTEM_NAME) →
  data !! "email" = Some email →
  write_user_record data st =
    (Return tt, store_path (user_file_client email) (written data) st).
Proof. apply write_user_record_eval. Qed.

(** ** The handlers, evaluated *)

Lemma signup_conflict req salt st :
  reachable st = true →
  is_Some (lookup_path (user_file_client (SignupRequest.email req)) st) →
  signup req salt st = (Raise (HTTPException 400 "User already exists"), st).
Proof.
  intros Hr Hfile. unfold signup, bind. rewrite user_exists_eval by done.
  by rewrite bool_decide_true.
Qed.

Lemma signup_fresh req salt st pw_hash :
  reachable st = true →
  is_Some (file_systems st !! FILE_SYSTEM_NAME) →
  lookup_path (user_file_client (SignupRequest.email req)) st = None →
  hashpw (SignupRequest.password req) salt = Return pw_hash →
  signup req salt st =
    (Return {[ "ok" := PBool true ]},
     store_path (user_file_client (SignupRequest.email req))
       (written (record_of req pw_hash)) st).
Proof.
  intros Hr Hfs Hfile Hhash. unfold signup, bind. rewrite user_exists_eval by done.
  rewrite Hfile, bool_decide_false by (by intros [? ?]).
  unfold lift. rewrite Hhash. fold (record_of req pw_hash).
  by rewrite (write_user_record_written _ (SignupRequest.email req)).
Qed.

Lemma signin_eval req st committed staged :
  reachable st = true →
  lookup_path (user_file_client (SigninRequest.email req)) st
    = Some (File committed staged) →
  signin req st =
    (match loads committed with
     | Return stored =>
         match get stored "password_hash" (PStr "") with
         | Return h =>
             match encode h with
             | Return stored_hash =>
                 match checkpw (SigninRequest.password req) stored_hash with
                 | Return ok =>
                     if negb ok then Raise (HTTPException 401 "Invalid credentials")
                     else Return {| SigninResponse.token :=
                                      "dummy-token-for-" +:+ SigninRequest.email req |}
                 | Raise e => Raise e
                 end
             | Raise e => Raise e
             end
         | Raise e => Raise e
         end
     | Raise e =>
         if decide (e = ResourceNotFoundError)
         then Raise (HTTPException 401 "Invalid credentials")
         else Raise e
     end, st).
Proof.
  intros Hr Hfile. unfold signin, bind, try_except.
  rewrite (read_user_record_eval _ _ committed staged) by done.
  destruct (loads committed) as [stored|e]; [|by case_decide].
  unfold lift. destruct (get stored _ _) as [h|e]; [|done].
  destruct (encode h) as [stored_hash|e]; [|done].
  destruct (checkpw _ stored_hash) as [ok|e]; [|done].
  by destruct ok.
Qed.

Lemma signin_not_found req st :
  reachable st = true →
  lookup_path (user_file_client (SigninRequest.email req)) st = None →
  signin req st = (Raise (HTTPException 401 "Invalid credentials"), st).
Proof.
  intros Hr Hfile. unfold signin, bind, try_except.
  by rewrite read_user_record_not_found by done.
Qed.

Lemma signin_returns req st r st' :
  signin req st = (Return r, st') →
  r = {| SigninResponse.token := "dummy-token-for-" +:+ SigninRequest.email req |}.
Proof.
  unfold signin, bind, try_except, lift, raise, ret.
  destruct (read_user_record _ st) as [[stored|e] st1].
  - destruct (get stored _ _) as [h|?]; [|done].
    destruct (encode h) as [stored_hash|?]; [|done].
    destruct (checkpw _ stored_hash) as [[|]|?]; simpl; congruence.
  - destruct (decide (e = ResourceNotFoundError)); congruence.
Qed.

Lemma get_profile_not_found email st :
  reachable st = true →
  lookup_path (user_file_client email) st = None →
  get_profile email st = (Raise (HTTPException 404 "Profile not found"), st).
Proof.
  intros Hr Hfile. unfold get_profile, bind, try_except.
  by rewrite read_user_record_not_found by done.
Qed.

(** A signup leaves the files of all other emails as they were. *)
Lemma signup_other_users req salt st email :
  email ≠ SignupRequest.email req →
  lookup_path (user_file_client email) (signup req salt st).2
  = lookup_path (user_file_client email) st.
Proof.
  intros Hne.
  assert (Hfc : user_file_client (SignupRequest.email req) ≠ user_file_client email).
  { intros Heq. by apply user_file_client_inj in Heq. }
  unfold signup, bind, lift, raise, ret.
  destruct (user_exists _ st) as [[[|]|?] st1] eqn:Hex; simpl;
    try (by unfold user_exists, try_except, bind, get_file_properties, request, ret in Hex;
         repeat case_match; simplify_eq).
  assert (st1 = st) as ->.
  { unfold user_exists, try_except, bind, get_file_properties, request, ret in Hex.
    repeat case_match; simplify_eq; done. }
  destruct (hashpw _ salt) as [pw_hash|?]; [|done].
  fold (record_of req pw_hash).
  set (fc := user_file_client (SignupRequest.email req)) in *.
  assert (Hw : lookup_path (user_file_client email)
                 (write_user_record (record_of req pw_hash) st).2
               = lookup_path (user_file_client email) st).
  { unfold write_user_record, bind, lift.
    change (record_of req pw_hash !! "email") with (Some (SignupRequest.email req)).
    cbv beta iota zeta. fold fc.
    unfold create_file, append_data, flush_data, request.
    repeat (case_match; simplify_eq; simpl;
            rewrite ?lookup_path_store_path_ne by done); done. }
  destruct (write_user_record _ st) as [[[]|?] st2]; simpl in *; done.
Qed.

(** X11: after a signup that succeeds, a signin with the email and the
    password of the signup is decided by what [checkpw] says about the hash
    that [hashpw] returned and the signup stored: the token when it
    accepts, [HTTPException(401, "Invalid credentials")] when it does not. *)
Lemma signin_after_signup req salt st pw_hash ok :
  reachable st = true →
  is_Some (file_systems st !! FILE_SYSTEM_NAME) →
  lookup_path (user_file_client (SignupRequest.email req)) st = None →
  hashpw (SignupRequest.password req) salt = Return pw_hash →
  loads (dumps (PDict (PStr <$> record_of req pw_hash)))
    = Return (PDict (PStr <$> record_of req pw_hash)) →
  checkpw (SignupRequest.password req) pw_hash = Return ok →
  (signin {| SigninRequest.email := SignupRequest.email req;
             SigninRequest.password := SignupRequest.password req |}
     (signup req salt st).2).1
  = if ok
    then Return {| SigninResponse.token :=
                     "dummy-token-for-" +:+ SignupRequest.email req |}
    else Raise (HTTPException 401 "Invalid credentials").
Proof.
  intros Hr Hfs Hfile Hhash Hjson Hcheck.
  rewrite (signup_fresh _ _ _ pw_hash) by done. simpl.
  rewrite (signin_eval _ _ (dumps (PDict (PStr <$> record_of req pw_hash))) "").
  - simpl. rewrite Hjson. unfold get. rewrite lookup_fmap.
    change (record_of req pw_hash !! "password_hash") with (Some pw_hash).
    simpl. rewrite Hcheck. by destruct ok.
  - by rewrite reachable_store_path.
  - by apply lookup_path_store_path_eq.
Qed.

Lemma signup_returns req salt st b st' :
  signup req salt st = (Return b, st') → b = {[ "ok" := PBool true ]}.
Proof.
  unfold signup, bind, lift, raise, ret.
  destruct (user_exists _ st) as [[[|]|?] st1]; try done.
  destruct (hashpw _ salt) as [pw_hash|?]; [|done].
  destruct (write_user_record _ st1) as [[[]|?] st2]; congruence.
Qed.

Lemma get_profile_eval email st committed staged :
  reachable st = true →
  lookup_path (user_file_client email) st = Some (File committed staged) →
  get_profile email st =
    (match loads committed with
     | Return record =>
         match get record "name" (PStr "") with
         | Return name =>
             match get record "dob" (PStr "") with
             | Return dob => ProfileResponse.init name email dob
             | Raise e => Raise e
             end
         | Raise e => Raise e
         end
     | Raise e =>
         if decide (e = ResourceNotFoundError)
         then Raise (HTTPException 404 "Profile not found")
         else Raise e
     end, st).
Proof.
  intros Hr Hfile. unfold get_profile, bind, try_except.
  rewrite (read_user_record_eval _ _ committed staged) by done.
  destruct (loads committed) as [record|e]; [|by case_decide].
  unfold lift. destruct (get record "name" _) as [name|e]; [|done].
  by destruct (get record "dob" _) as [dob|e].
Qed.

Lemma get_profile_returns email st r st' :
  get_profile email st = (Return r, st') → ProfileResponse.email r = email.
Proof.
  unfold get_profile, bind, try_except, lift, raise.
  destruct (read_user_record _ st) as [[record|e] st1].
  - destruct (get record "name" _) as [name|?]; [|done].
    destruct (get record "dob" _) as [dob|?]; [|done].
    unfold ProfileResponse.init. destruct name, dob; try done.
    by intros [= <- _].
  - destruct (decide (e = ResourceNotFoundError)); congruence.
Qed.

Lemma fields_respond {A} (body : A → gmap string pyval) (o : outcome A) (k : string) :
  k ≠ "detail" →
  (∀ a, o = Return a → k ∉ dom (body a)) →
  k ∉ fields (respond body o).
Proof.
  intros Hk Hbody. unfold fields, respond. destruct o as [a|e]; simpl.
  - by apply Hbody.
  - destruct e; simpl; try set_solver.
Qed.

(** ** The claims *)

(** C1: a signup whose email has no file yet (on a reachable service with
    the file system in place, and a password bcrypt hashes) returns
    [{"ok": True}] and leaves the user's file holding the whole record,
    after which any signup for that email is refused; a signup whose email
    has a file fails with [HTTPException(400, "User already exists")] and
    leaves the lake as it was. *)
Theorem signup_fresh_or_conflict req salt st :
  reachable st = true →
  (∀ pw_hash,
     is_Some (file_systems st !! FILE_SYSTEM_NAME) →
     lookup_path (user_file_client (SignupRequest.email req)) st = None →
     hashpw (SignupRequest.password req) salt = Return pw_hash →
     ∃ st',
       signup req salt st = (Return {[ "ok" := PBool true ]}, st')
       ∧ lookup_path (user_file_client (SignupRequest.email req)) st'
         = Some (written (record_of req pw_hash))
       ∧ (∀ req' salt',
            SignupRequest.email req' = SignupRequest.email req →
            signup req' salt' st'
            = (Raise (HTTPException 400 "User already exists"), st')))
  ∧ (is_Some (lookup_path (user_file_client (SignupRequest.email req)) st) →
     signup req salt st = (Raise (HTTPException 400 "User already exists"), st)).
Proof.
  intros Hr. split.
  - intros pw_hash Hfs Hfile Hhash. eexists. split; [by apply signup_fresh|].
    assert (Hl : lookup_path (user_file_client (SignupRequest.email req))
                   (store_path (user_file_client (SignupRequest.email req))
                      (written (record_of req pw_hash)) st)
                 = Some (written (record_of req pw_hash))).
    { by apply lookup_path_store_path_eq. }
    split; [done|]. intros req' salt' Heq. apply signup_conflict.
    + by rewrite reachable_store_path.
    + rewrite Heq, Hl. eauto.
  - by apply signup_conflict.
Qed.


(** C7: a signin whose record is read and whose password bcrypt accepts
    returns the token ["dummy-token-for-" + email]; every signin that
    returns, returns that token, which is not empty; so two signins that
    return for the same email return the same token. *)
Theorem signin_token req st :
  (∀ committed staged stored h stored_hash,
     reachable st = true →
     lookup_path (user_file_client (SigninRequest.email req)) st
       = Some (File committed staged) →
     loads committed = Return stored →
     get stored "password_hash" (PStr "") = Return h →
     encode h = Return stored_hash →
     checkpw (SigninRequest.password req) stored_hash = Return true →
     signin req st =
       (Return {| SigninResponse.token :=
                    "dummy-token-for-" +:+ SigninRequest.email req |}, st))
  ∧ (∀ r st', signin req st = (Return r, st') →
       SigninResponse.token r = "dummy-token-for-" +:+ SigninRequest.email req
       ∧ SigninResponse.token r ≠ "")
  ∧ (∀ req2 st2 r st' r2 st2',
       SigninRequest.email req2 = SigninRequest.email req →
       signin req st = (Return r, st') →
       signin req2 st2 = (Return r2, st2') →
       SigninResponse.token r = SigninResponse.token r2).
Proof.
  split; [|split].
  - intros committed staged stored h stored_hash Hr Hfile Hloads Hget Henc Hcheck.
    rewrite (signin_eval _ _ committed staged) by done.
    by rewrite Hloads, Hget, Henc, Hcheck.
  - intros r st' Hret. apply signin_returns in Hret as ->. done.
  - intros req2 st2 r st' r2 st2' Heq Hret Hret2.
    apply signin_returns in Hret as ->. apply signin_returns in Hret2 as ->.
    simpl. by rewrite Heq.
Qed.

(** C9: [user_exists(email)] returns [True] exactly when the lake holds the
    path of the user's file and [False], without raising, when it does
    not; any other failure of the storage request is not turned into a
    result but propagates. *)
Theorem user_exists_iff_file_present email st :
  (reachable st = true →
   (is_Some (lookup_path (user_file_client email) st) →
    user_exists email st = (Return true, st))
   ∧ (lookup_path (user_file_client email) st = None →
      user_exists email st = (Return false, st)))
  ∧ (∀ e st', get_file_properties (user_file_client email) st = (Raise e, st') →
       e ≠ ResourceNotFoundError → user_exists email st = (Raise e, st'))
  ∧ (reachable st = false → user_exists email st = (Raise HttpResponseError, st)).
Proof.
  split; [|split].
  - intros Hr. rewrite user_exists_eval by done. split; intros Hfile.
    + by rewrite bool_decide_true.
    + rewrite Hfile. rewrite bool_decide_false; [done|]. by intros [? ?].
  - apply user_exists_propagates.
  - intros Hr. apply user_exists_propagates; [|done].
    unfold get_file_properties, request. by rewrite Hr.
Qed.

Lemma ensure_present st :
  reachable st = true →
  is_Some (lookup_path directory_client st) →
  ensure_filesystem_and_directory st = (Return tt, st).
Proof.
  intros Hr Hdir. destruct (lookup_path_is_Some _ _ Hdir) as [paths Hfs].
  unfold lookup_path in Hdir. rewrite Hfs in Hdir.
  destruct Hdir as [e Hdir].
  change (paths !! pc_path directory_client = Some e) in Hdir.
  unfold ensure_filesystem_and_directory, bind, try_except, create_file_system,
    create_directory, request, ret.
  change file_system_client with (pc_file_system directory_client).
  rewrite Hr, Hfs. cbv beta iota zeta. rewrite decide_True by done.
  rewrite Hr, Hfs, Hdir. destruct (exclusive_create st); cbv beta iota zeta.
  - by rewrite decide_True by done.
  - done.
Qed.

Lemma times_fixed (m : M unit) st n :
  m st = (Return tt, st) → times n m st = (Return tt, st).
Proof.
  intros Hm. induction n as [|n IH]; [done|].
  simpl. unfold bind. by rewrite Hm.
Qed.

(** C8: on a reachable service [ensure_filesystem_and_directory] always
    completes normally and leaves the file system and the directory
    present: what is absent is created, and the [ResourceExistsError] for
    what is present is swallowed (the lake is then left as it was).  Run
    again, any number of times, it completes normally and changes
    nothing. *)
Theorem ensure_filesystem_and_directory_idempotent st :
  reachable st = true →
  ∃ st',
    ensure_filesystem_and_directory st = (Return tt, st')
    ∧ is_Some (file_systems st' !! FILE_SYSTEM_NAME)
    ∧ is_Some (lookup_path directory_client st')
    ∧ (is_Some (lookup_path directory_client st) → st' = st)
    ∧ (∀ n, times n ensure_filesystem_and_directory st' = (Return tt, st')).
Proof.
  intros Hr.
  assert (Hgoal : ∃ st', ensure_filesystem_and_directory st = (Return tt, st')
                    ∧ reachable st' = true
                    ∧ is_Some (lookup_path directory_client st')
                    ∧ (is_Some (lookup_path directory_client st) → st' = st)).
  { destruct (lookup_path directory_client st) as [e|] eqn:Hdir.
    { exists st. rewrite ensure_present by (rewrite ?Hdir; eauto). eauto. }
    unfold ensure_filesystem_and_directory, bind, try_except, create_file_system,
      create_directory, request, ret.
    unfold lookup_path in Hdir.
    change file_system_client with (pc_file_system directory_client).
    rewrite Hr.
    destruct (file_systems st !! pc_file_system directory_client) as [paths|] eqn:Hfs.
    - change (paths !! pc_path directory_client = None) in Hdir.
      cbv beta iota zeta. rewrite decide_True by done.
      rewrite Hr, Hfs, Hdir. cbv beta iota zeta.
      eexists. split; [done|].
      rewrite reachable_store_path. split; [done|]. split; [|by intros [? ?]].
      rewrite lookup_path_store_path_eq; eauto.
    - cbv beta iota zeta.
      change (reachable (set_file_systems ?fs st)) with (reachable st).
      change (file_systems (set_file_systems ?fs st)) with fs.
      rewrite Hr, lookup_insert_eq, lookup_empty. cbv beta iota zeta.
      eexists. split; [done|].
      rewrite reachable_store_path. split; [done|]. split; [|by intros [? ?]].
      rewrite lookup_path_store_path_eq; [eauto|].
      change (file_systems (set_file_systems ?fs st)) with fs.
      rewrite lookup_insert_eq. eauto. }
  destruct Hgoal as (st' & Hrun & Hr' & Hdir' & Hsame).
  exists st'. split; [done|]. split; [by apply lookup_path_is_Some in Hdir'|].
  split; [done|]. split; [done|].
  intros n. apply times_fixed. by apply ensure_present.
Qed.

(** C6: [write_user_record(data)] on a reachable service with the file
    system in place completes and leaves, whatever the path held before, a
    file whose committed content is the JSON text of the whole record, with
    nothing left unflushed, and touches no other path; a following
    [read_user_record(data["email"])] parses exactly that text, so for a
    record that JSON round-trips it returns the record that was written. *)
Theorem write_then_read data email st :
  reachable st = true →
  is_Some (file_systems st !! FILE_SYSTEM_NAME) →
  data !! "email" = Some email →
  loads (dumps (PDict (PStr <$> data))) = Return (PDict (PStr <$> data)) →
  ∃ st',
    write_user_record data st = (Return tt, st')
    ∧ lookup_path (user_file_client email) st'
      = Some (File (dumps (PDict (PStr <$> data))) "")
    ∧ (∀ pc, pc ≠ user_file_client email → lookup_path pc st' = lookup_path pc st)
    ∧ read_user_record email st' = (Return (PDict (PStr <$> data)), st').
Proof.
  intros Hr Hfs Hemail Hjson. eexists. split; [by apply write_user_record_eval|].
  assert (Hl : lookup_path (user_file_client email)
                 (store_path (user_file_client email)
                    (File (dumps (PDict (PStr <$> data))) "") st)
               = Some (File (dumps (PDict (PStr <$> data))) "")).
  { by apply lookup_path_store_path_eq. }
  split; [done|]. split.
  - intros pc Hne. by apply lookup_path_store_path_ne.
  - rewrite (read_user_record_eval _ _ _ _ (eq_trans (reachable_store_path _ _ _) Hr) Hl).
    by rewrite Hjson.
Qed.

(** C10: when the file of the queried email is read and holds a JSON
    object, [get_profile] does not fail for a missing [name] or [dob]: it
    returns the empty string for a key the object lacks and the stored
    string for a key it has.  Whenever [get_profile] returns, the email of
    the response is the query parameter. *)
Theorem get_profile_defaults email st :
  (∀ committed staged d,
     reachable st = true →
     lookup_path (user_file_client email) st = Some (File committed staged) →
     loads committed = Return (PDict d) →
     (∀ v, d !! "name" = Some v → ∃ s, v = PStr s) →
     (∀ v, d !! "dob" = Some v → ∃ s, v = PStr s) →
     ∃ r,
       get_profile email st = (Return r, st)
       ∧ ProfileResponse.email r = email
       ∧ (d !! "name" = None → ProfileResponse.name r = "")
       ∧ (d !! "dob" = None → ProfileResponse.dob r = "")
       ∧ (∀ s, d !! "name" = Some (PStr s) → ProfileResponse.name r = s)
       ∧ (∀ s, d !! "dob" = Some (PStr s) → ProfileResponse.dob r = s))
  ∧ (∀ r st', get_profile email st = (Return r, st') → ProfileResponse.email r = email).
Proof.
  split; [|apply get_profile_returns].
  intros committed staged d Hr Hfile Hloads Hname Hdob.
  rewrite (get_profile_eval _ _ committed staged) by done.
  rewrite Hloads. unfold get, ProfileResponse.init.
  destruct (d !! "name") as [name|] eqn:En; destruct (d !! "dob") as [dob|] eqn:Ed.
  - destruct (Hname _ eq_refl) as [n ->]. destruct (Hdob _ eq_refl) as [b ->].
    eexists. split; [done|]. simpl. repeat split; congruence.
  - destruct (Hname _ eq_refl) as [n ->].
    eexists. split; [done|]. simpl. repeat split; congruence.
  - destruct (Hdob _ eq_refl) as [b ->].
    eexists. split; [done|]. simpl. repeat split; congruence.
  - eexists. split; [done|]. simpl. repeat split; congruence.
Qed.

(** C4: after a signup that succeeds (fresh email, reachable service, a
    record that JSON round-trips), [get_profile(email)] returns the name,
    the email and the date of birth (as [str(dob)]) of the signup request,
    and the body of the response has exactly the keys [name], [email] and
    [dob].  No response of the application, to any request in any state of
    the lake, has a [password_hash] key. *)
Theorem profile_after_signup req salt st :
  (∀ pw_hash,
     reachable st = true →
     is_Some (file_systems st !! FILE_SYSTEM_NAME) →
     lookup_path (user_file_client (SignupRequest.email req)) st = None →
     hashpw (SignupRequest.password req) salt = Return pw_hash →
     loads (dumps (PDict (PStr <$> record_of req pw_hash)))
       = Return (PDict (PStr <$> record_of req pw_hash)) →
     ∃ st' r,
       signup req salt st = (Return {[ "ok" := PBool true ]}, st')
       ∧ get_profile (SignupRequest.email req) st' = (Return r, st')
       ∧ r = {| ProfileResponse.name := SignupRequest.name req;
                ProfileResponse.email := SignupRequest.email req;
                ProfileResponse.dob := date_str (SignupRequest.dob req) |}
       ∧ dom (ProfileResponse.body r) = {[ "name"; "email"; "dob" ]})
  ∧ (∀ request lake, "password_hash" ∉ fields (app request lake).1).
Proof.
  split.
  - intros pw_hash Hr Hfs Hfile Hhash Hjson. eexists _, _.
    split; [by apply signup_fresh|].
    split; [|split; [reflexivity|]].
    + rewrite (get_profile_eval _ _ (dumps (PDict (PStr <$> record_of req pw_hash))) "").
      * rewrite Hjson. unfold get. by rewrite !lookup_fmap.
      * by rewrite reachable_store_path.
      * by apply lookup_path_store_path_eq.
    + unfold ProfileResponse.body. rewrite !dom_insert_L, dom_singleton_L. set_solver.
  - intros request lake. destruct request as [|rq slt|rq|email]; unfold app, serve.
    + unfold health_check, ret, respond, fields, id. simpl.
      rewrite dom_singleton_L. set_solver.
    + destruct (signup rq slt lake) as [o st'] eqn:Hrun. simpl.
      apply fields_respond; [done|]. intros b ->.
      apply signup_returns in Hrun as ->. simpl. rewrite dom_singleton_L. set_solver.
    + destruct (signin rq lake) as [o st'] eqn:Hrun. simpl.
      apply fields_respond; [done|]. intros b ->.
      unfold SigninResponse.body. rewrite dom_singleton_L. set_solver.
    + destruct (get_profile email lake) as [o st'] eqn:Hrun. simpl.
      apply fields_respond; [done|]. intros b ->.
      unfold ProfileResponse.body. rewrite !dom_insert_L, dom_singleton_L.
      rewrite !elem_of_union, !elem_of_singleton. by intros [?|[?|?]].
Qed.

(** C3 (what the code does): [signin] calls [bcrypt.checkpw] on the stored
    hash, or on the empty byte string when the record has no
    [password_hash], and handles none of its exceptions.  When bcrypt
    rejects the empty hash with a [ValueError], the signin ends with that
    [ValueError], which the application answers with a 500, not with an
    [HTTPException(401)]. *)
Theorem signin_blank_hash_raises req st committed staged d msg :
  reachable st = true →
  lookup_path (user_file_client (SigninRequest.email req)) st
    = Some (File committed staged) →
  loads committed = Return (PDict d) →
  d !! "password_hash" = None ∨ d !! "password_hash" = Some (PStr "") →
  checkpw (SigninRequest.password req) "" = Raise (ValueError msg) →
  signin req st = (Raise (ValueError msg), st)
  ∧ (app (POST_signin req) st).1
    = {| status := 500; content := PStr "Internal Server Error" |}.
Proof.
  intros Hr Hfile Hloads Hhash Hcheck.
  assert (Hrun : signin req st = (Raise (ValueError msg), st)).
  { rewrite (signin_eval _ _ committed staged) by done.
    rewrite Hloads. unfold get.
    destruct Hhash as [-> | ->]; simpl; by rewrite Hcheck. }
  split; [done|]. unfold app, serve. by rewrite Hrun.
Qed.

End Properties.

(** ** The reference JSON codec inverts itself on dicts of strings *)

Lemma string_app_assoc (s t u : string) : (s +:+ t) +:+ u = s +:+ (t +:+ u).
Proof.
  induction s as [|c s IH]; [done|].
  change (String c ((s +:+ t) +:+ u) = String c (s +:+ t +:+ u)). by rewrite IH.
Qed.

Lemma demo_expect_app (p s : string) : Demo.expect p (p +:+ s) = Some s.
Proof.
  induction p as [|c p IH]; [done|].
  change (Demo.expect (String c p) (String c (p +:+ s)) = Some s).
  simpl. by rewrite decide_True.
Qed.

Lemma demo_unquote_escape (s rest : string) :
  Demo.unquote (Demo.escape s +:+ String Demo.dquote rest) = Some (s, rest).
Proof.
  induction s as [|c s IH].
  - done.
  - simpl. destruct (decide (c = Demo.dquote ∨ c = Demo.backslash)) as [Hc|Hc].
    + change (Demo.unquote
                (String Demo.backslash
                   (String c (Demo.escape s +:+ String Demo.dquote rest)))
              = Some (String c s, rest)).
      simpl. by rewrite IH.
    + change (Demo.unquote (String c (Demo.escape s +:+ String Demo.dquote rest))
              = Some (String c s, rest)).
      simpl. rewrite decide_False by tauto. rewrite decide_False by tauto.
      by rewrite IH.
Qed.

(** Reading back a quoted string followed by [rest]. *)
Lemma demo_read_quote (s rest : string) :
  Demo.read_string (Demo.quote s +:+ rest) = Some (s, rest).
Proof.
  unfold Demo.read_string, Demo.quote.
  change (String Demo.dquote (Demo.escape s +:+ String Demo.dquote "") +:+ rest)
    with (String Demo.dquote "" +:+
          ((Demo.escape s +:+ String Demo.dquote "") +:+ rest)).
  rewrite demo_expect_app. rewrite string_app_assoc.
  apply demo_unquote_escape.
Qed.

Lemma demo_members_S fuel s :
  Demo.members (S fuel) s =
    '(k, s) ← Demo.read_string s;
    s ← Demo.expect ": " s;
    '(v, s) ← Demo.read_string s;
    if decide (s = "}") then Some [(k, PStr v)]
    else s ← Demo.expect ", " s;
         l ← Demo.members fuel s;
         Some ((k, PStr v) :: l).
Proof. done. Qed.

#[local] Arguments Demo.expect : simpl never.
#[local] Arguments Demo.unquote : simpl never.
#[local] Arguments Demo.read_string : simpl never.
#[local] Arguments Demo.members : simpl never.

Lemma demo_members_one fuel k v rest l :
  (rest = "}" ∧ l = []
   ∨ ∃ rest', rest = ", " +:+ rest' ∧ l ≠ [] ∧ Demo.members fuel rest' = Some l) →
  Demo.members (S fuel) (Demo.member (k, PStr v) +:+ rest) = Some ((k, PStr v) :: l).
Proof.
  intros Hrest. rewrite demo_members_S. unfold Demo.member. simpl.
  rewrite !string_app_assoc, demo_read_quote. simpl.
  change ("" +:+ Demo.quote v +:+ rest) with (Demo.quote v +:+ rest).
  rewrite demo_read_quote. simpl.
  destruct Hrest as [[-> ->]|(rest' & -> & Hl & Hm)].
  - done.
  - rewrite decide_False by done. rewrite demo_expect_app. simpl.
    by rewrite Hm.
Qed.

Lemma demo_members_join (l : list (string * pyval)) fuel :
  l ≠ [] → Demo.strings l → (length l ≤ fuel)%nat →
  Demo.members fuel (Demo.join ", " (Demo.member <$> l) +:+ "}") = Some l.
Proof.
  revert fuel. induction l as [|[k v] l IH]; [done|].
  intros fuel _ Hstr Hfuel. destruct fuel as [|fuel]; [simpl in Hfuel; lia|].
  destruct (Hstr (k, v)) as [s Hs]; [left|]. simpl in Hs. subst v.
  destruct l as [|kv l].
  - apply demo_members_one. by left.
  - change (Demo.join ", " (Demo.member <$> (k, PStr s) :: kv :: l))
      with (Demo.member (k, PStr s) +:+ ", " +:+
            Demo.join ", " (Demo.member <$> kv :: l)).
    rewrite !string_app_assoc. apply demo_members_one. right.
    eexists. split; [done|]. split; [done|].
    apply IH; [done| |simpl in *; lia].
    intros x Hx. apply Hstr. by right.
Qed.

Lemma demo_join_length (l : list (string * pyval)) :
  (length l ≤ String.length (Demo.join ", " (Demo.member <$> l)))%nat.
Proof.
  induction l as [|kv l IH]; [done|].
  destruct l as [|kv' l].
  - destruct kv as [k v]. unfold Demo.member, Demo.quote. simpl. lia.
  - change (Demo.join ", " (Demo.member <$> kv :: kv' :: l))
      with (Demo.member kv +:+ ", " +:+ Demo.join ", " (Demo.member <$> kv' :: l)).
    rewrite !string_length_app. simpl in *. lia.
Qed.

(** The reference codec reads back every dict of strings it writes. *)
Lemma demo_json_round_trip (m : gmap string pyval) :
  (∀ k v, m !! k = Some v → ∃ s, v = PStr s) →
  Demo.loads (Demo.dumps (PDict m)) = Return (PDict m).
Proof.
  intros Hm. unfold Demo.loads, Demo.dumps.
  destruct (map_to_list m) as [|kv l] eqn:Hl.
  { apply map_to_list_empty_iff in Hl as ->. done. }
  rewrite <- Hl.
  assert (Hne : map_to_list m ≠ []) by (by rewrite Hl).
  assert (Hstr : Demo.strings (map_to_list m)).
  { intros [k v] Hkv. apply elem_of_map_to_list in Hkv. by apply Hm in Hkv. }
  set (body := Demo.join ", " (Demo.member <$> map_to_list m)).
  rewrite decide_False.
  2:{ unfold body. rewrite Hl. destruct kv as [k v]. destruct l; simpl; discriminate. }
  change ("{" +:+ body +:+ "}") with (String "{" (body +:+ "}")).
  simpl. unfold body. rewrite demo_members_join; [|done|done|].
  2:{ rewrite string_length_app. pose proof (demo_join_length (map_to_list m)). lia. }
  do 2 f_equal. rewrite <- (list_to_map_to_list m) at 2.
  apply list_to_map_proper.
  - rewrite fmap_reverse, reverse_Permutation. apply NoDup_fst_map_to_list.
  - apply reverse_Permutation.
Qed.

Lemma demo_json_round_trip_record (data : gmap string string) :
  Demo.loads (Demo.dumps (PDict (PStr <$> data))) = Return (PDict (PStr <$> data)).
Proof.
  apply demo_json_round_trip. intros k v Hv.
  rewrite lookup_fmap in Hv. destruct (data !! k) as [s|]; [|done].
  injection Hv as <-. eauto.
Qed.

Lemma user_exists_iff_file_present_witness :
  user_exists "a@x.com" Demo.lake = (Return false, Demo.lake)
  ∧ user_exists "a@x.com" Demo.lake_ann = (Return true, Demo.lake_ann).
Proof.
  split.
  - apply (user_exists_iff_file_present "a@x.com" Demo.lake); reflexivity.
  - apply (user_exists_iff_file_present "a@x.com"); [reflexivity|].
    vm_compute. eauto.
Defined.

Lemma ensure_filesystem_and_directory_idempotent_witness :
  ∃ st',
    ensure_filesystem_and_directory Demo.fresh_account = (Return tt, st')
    ∧ is_Some (file_systems st' !! FILE_SYSTEM_NAME)
    ∧ is_Some (lookup_path directory_client st')
    ∧ (is_Some (lookup_path directory_client Demo.fresh_account) → st' = Demo.fresh_account)
    ∧ (∀ n, times n ensure_filesystem_and_directory st' = (Return tt, st')).
Proof.
  apply (ensure_filesystem_and_directory_idempotent Demo.fresh_account).
  reflexivity.
Defined.

Lemma signup_fresh_or_conflict_witness :
  (∃ st',
     @signup Demo.bcrypt Demo.json Demo.ann Demo.salt Demo.lake
     = (Return {[ "ok" := PBool true ]}, st')
     ∧ lookup_path (user_file_client "a@x.com") st'
       = Some (@written Demo.json (record_of Demo.ann Demo.ann_hash))
     ∧ (∀ req' salt',
          SignupRequest.email req' = "a@x.com" →
          @signup Demo.bcrypt Demo.json req' salt' st'
          = (Raise (HTTPException 400 "User already exists"), st')))
  ∧ @signup Demo.bcrypt Demo.json Demo.ann Demo.salt Demo.lake_ann
    = (Raise (HTTPException 400 "User already exists"), Demo.lake_ann).
Proof.
  split.
  - apply (@signup_fresh_or_conflict Demo.bcrypt Demo.json Demo.ann Demo.salt Demo.lake
             eq_refl).
    + vm_compute. eauto.
    + reflexivity.
    + reflexivity.
  - apply (@signup_fresh_or_conflict Demo.bcrypt Demo.json Demo.ann Demo.salt Demo.lake_ann).
    + reflexivity.
    + vm_compute. eauto.
Defined.


Lemma signin_token_witness :
  @signin Demo.bcrypt Demo.json Demo.ann_signin Demo.lake_ann
  = (Return {| SigninResponse.token := "dummy-token-for-a@x.com" |}, Demo.lake_ann).
Proof.
  apply (proj1 (@signin_token Demo.bcrypt Demo.json Demo.ann_signin Demo.lake_ann)
           (Demo.dumps (PDict (PStr <$> @record_of Demo.ann Demo.ann_hash))) ""
           (PDict (PStr <$> @record_of Demo.ann Demo.ann_hash))
           (PStr Demo.ann_hash) Demo.ann_hash);
    vm_compute; reflexivity.
Defined.

Lemma write_then_read_witness :
  ∃ st',
    @write_user_record Demo.json (record_of Demo.ann Demo.ann_hash) Demo.lake_ann
    = (Return tt, st')
    ∧ lookup_path (user_file_client "a@x.com") st'
      = Some (File (Demo.dumps (PDict (PStr <$> record_of Demo.ann Demo.ann_hash))) "")
    ∧ (∀ pc, pc ≠ user_file_client "a@x.com" →
         lookup_path pc st' = lookup_path pc Demo.lake_ann)
    ∧ @read_user_record Demo.json "a@x.com" st'
      = (Return (PDict (PStr <$> record_of Demo.ann Demo.ann_hash)), st').
Proof.
  apply (@write_then_read Demo.json (record_of Demo.ann Demo.ann_hash) "a@x.com"
           Demo.lake_ann).
  - reflexivity.
  - vm_compute. eauto.
  - reflexivity.
  - vm_compute. reflexivity.
Defined.

Lemma get_profile_defaults_witness :
  ∃ r,
    @get_profile Demo.json "c@x.com" Demo.lake_partial = (Return r, Demo.lake_partial)
    ∧ ProfileResponse.email r = "c@x.com"
    ∧ (Demo.partial_record !! "name" = None → ProfileResponse.name r = "")
    ∧ (Demo.partial_record !! "dob" = None → ProfileResponse.dob r = "")
    ∧ (∀ s, Demo.partial_record !! "name" = Some (PStr s) → ProfileResponse.name r = s)
    ∧ (∀ s, Demo.partial_record !! "dob" = Some (PStr s) → ProfileResponse.dob r = s).
Proof.
  apply (proj1 (@get_profile_defaults Demo.json "c@x.com" Demo.lake_partial)
           (Demo.dumps (PDict Demo.partial_record)) "" Demo.partial_record).
  - reflexivity.
  - reflexivity.
  - vm_compute. reflexivity.
  - intros v Hv. vm_compute in Hv. injection Hv as <-. eauto.
  - intros v Hv. vm_compute in Hv. discriminate Hv.
Defined.

Lemma profile_after_signup_witness :
  ∃ st' r,
    @signup Demo.bcrypt Demo.json Demo.ann Demo.salt Demo.lake
    = (Return {[ "ok" := PBool true ]}, st')
    ∧ @get_profile Demo.json "a@x.com" st' = (Return r, st')
    ∧ r = {| ProfileResponse.name := "Ann";
             ProfileResponse.email := "a@x.com";
             ProfileResponse.dob := "1990-01-01" |}
    ∧ dom (ProfileResponse.body r) = {[ "name"; "email"; "dob" ]}.
Proof.
  apply (proj1 (@profile_after_signup Demo.bcrypt Demo.json Demo.ann Demo.salt Demo.lake)
           Demo.ann_hash).
  - reflexivity.
  - vm_compute. eauto.
  - reflexivity.
  - reflexivity.
  - vm_compute. reflexivity.
Defined.

Lemma signin_blank_hash_raises_witness :
  @signin Demo.bcrypt Demo.json Demo.cy_signin Demo.lake_partial
  = (Raise (ValueError "Invalid salt"), Demo.lake_partial)
  ∧ (@app Demo.bcrypt Demo.json (POST_signin Demo.cy_signin) Demo.lake_partial).1
    = {| status := 500; content := PStr "Internal Server Error" |}.
Proof.
  apply (@signin_blank_hash_raises Demo.bcrypt Demo.json Demo.cy_signin Demo.lake_partial
           (Demo.dumps (PDict Demo.partial_record)) "" Demo.partial_record "Invalid salt").
  - reflexivity.
  - reflexivity.
  - vm_compute. reflexivity.
  - left. reflexivity.
  - reflexivity.
Defined.

(** * More properties of the code *)

(** ** Configuration *)

Lemma truthy_spec o : truthy o = true ↔ ∃ s, o = Some s ∧ s ≠ "".
Proof.
  destruct o as [s|]; simpl.
  - destruct (String.eqb_spec s ""); simpl; split.
    + done.
    + intros (s' & [= <-] & Hne). done.
    + intros _. eauto.
    + done.
  - split; [done|]. by intros (s & ? & _).
Qed.

(** X1: [get_service_client] uses [AZURE_STORAGE_CONNECTION_STRING] when it
    is set to a non-empty string; when it is unset or empty it falls back to
    [CUSTOMCONNSTR_AZURE_STORAGE_CONNECTION_STRING], if that is set and not
    empty; and it raises the [RuntimeError] exactly when each of the two is
    unset or empty. *)
Theorem get_service_client_precedence {C} (f : string → C) (environ : gmap string string) :
  (∀ s, environ !! "AZURE_STORAGE_CONNECTION_STRING" = Some s → s ≠ "" →
     get_service_client f environ = Client (f s))
  ∧ (∀ s, truthy (environ !! "AZURE_STORAGE_CONNECTION_STRING") = false →
       environ !! "CUSTOMCONNSTR_AZURE_STORAGE_CONNECTION_STRING" = Some s → s ≠ "" →
       get_service_client f environ = Client (f s))
  ∧ (get_service_client f environ = RuntimeError MISSING_CONNECTION_STRING
     ↔ truthy (environ !! "AZURE_STORAGE_CONNECTION_STRING") = false
       ∧ truthy (environ !! "CUSTOMCONNSTR_AZURE_STORAGE_CONNECTION_STRING") = false).
Proof.
  unfold get_service_client, or_else, getenv.
  set (a := environ !! "AZURE_STORAGE_CONNECTION_STRING").
  set (b := environ !! "CUSTOMCONNSTR_AZURE_STORAGE_CONNECTION_STRING").
  split; [|split].
  - intros s Ha Hs.
    assert (Ht : truthy a = true) by (apply truthy_spec; eauto).
    by rewrite Ht, Ht, Ha.
  - intros s Ha Hb Hs.
    assert (Ht : truthy b = true) by (apply truthy_spec; eauto).
    by rewrite Ha, Ht, Hb.
  - destruct (truthy a) eqn:Ha.
    + rewrite Ha. simpl. split; [done|]. by intros [? _].
    + destruct (truthy b) eqn:Hb; simpl; split; try done. by intros [_ ?].
Qed.

Lemma get_service_client_precedence_witness :
  get_service_client id Cases.app_settings = Client "UseDevelopmentStorage=true"
  ∧ get_service_client id (∅ : gmap string string)
    = RuntimeError MISSING_CONNECTION_STRING.
Proof.
  split.
  - apply (proj1 (proj2 (get_service_client_precedence id Cases.app_settings)));
      [reflexivity|reflexivity|discriminate].
  - apply (proj2 (proj2 (get_service_client_precedence id ∅))). by split.
Defined.

(** ** One file per email *)

(** X2: the file of an email is the path [users/<email>.json] of the file
    system [memento-users], and two emails have the same file only when
    they are the same email. *)
Theorem user_file_client_one_file_per_email email :
  pc_file_system (user_file_client email) = "memento-users"
  ∧ pc_path (user_file_client email) = "users/" +:+ email +:+ ".json"
  ∧ (∀ email', user_file_client email = user_file_client email' ↔ email = email').
Proof.
  split; [done|]. split; [done|]. intros email'. split.
  - apply user_file_client_inj.
  - by intros ->.
Qed.

(** ** What reads and what writes *)

Lemma reads_only_ret {A} (a : A) : reads_only (ret a).
Proof. by intros st. Qed.

Lemma reads_only_raise {A} e : reads_only (@raise A e).
Proof. by intros st. Qed.

Lemma reads_only_lift {A} (o : outcome A) : reads_only (lift o).
Proof. by intros st. Qed.

Lemma reads_only_bind {A B} (m : M A) (k : A → M B) :
  reads_only m → (∀ a, reads_only (k a)) → reads_only (bind m k).
Proof.
  intros Hm Hk st. unfold bind. specialize (Hm st).
  destruct (m st) as [[a|e] st1]; simpl in *; subst; [apply Hk|done].
Qed.

Lemma reads_only_try_except {A} (m : M A) E (h : M A) :
  reads_only m → reads_only h → reads_only (try_except m E h).
Proof.
  intros Hm Hh st. unfold try_except. specialize (Hm st).
  destruct (m st) as [[a|e] st1]; simpl in *; subst; [done|].
  destruct (decide (e = E)); [apply Hh|done].
Qed.

Lemma reads_only_get_file_properties fc : reads_only (get_file_properties fc).
Proof.
  intros st. unfold get_file_properties, request.
  destruct (reachable st); [|done]. by destruct (lookup_path fc st).
Qed.

Lemma reads_only_download_file_readall fc : reads_only (download_file_readall fc).
Proof.
  intros st. unfold download_file_readall, request.
  destruct (reachable st); [|done]. by destruct (lookup_path fc st) as [[|? ?]|].
Qed.

Create HintDb reads discriminated.
#[global] Hint Resolve reads_only_ret reads_only_raise reads_only_lift reads_only_bind
  reads_only_try_except reads_only_get_file_properties reads_only_download_file_readall
  : reads.

Section MoreProperties.
Context `{!Bcrypt, !Json}.

Lemma reads_only_user_exists email : reads_only (user_exists email).
Proof. unfold user_exists. auto 10 with reads. Qed.

Lemma reads_only_read_user_record email : reads_only (read_user_record email).
Proof. unfold read_user_record. auto 10 with reads. Qed.

Lemma reads_only_signin req : reads_only (signin req).
Proof.
  unfold signin. apply reads_only_bind.
  { apply reads_only_try_except; [apply reads_only_read_user_record|apply reads_only_raise]. }
  intros stored. apply reads_only_bind; [apply reads_only_lift|]. intros h.
  apply reads_only_bind; [apply reads_only_lift|]. intros stored_hash.
  apply reads_only_bind; [apply reads_only_lift|]. intros [|]; simpl; auto with reads.
Qed.

Lemma reads_only_get_profile email : reads_only (get_profile email).
Proof.
  unfold get_profile. apply reads_only_bind.
  { apply reads_only_try_except; [apply reads_only_read_user_record|apply reads_only_raise]. }
  auto 10 with reads.
Qed.

(** X3: [user_exists], [read_user_record], [signin], [get_profile] and
    [health_check] only read: in every state of the lake and whatever they
    return or raise, they leave the lake exactly as it was. *)
Theorem readers_leave_the_lake st :
  (∀ email, (user_exists email st).2 = st)
  ∧ (∀ email, (read_user_record email st).2 = st)
  ∧ (∀ req, (signin req st).2 = st)
  ∧ (∀ email, (get_profile email st).2 = st)
  ∧ (health_check st).2 = st
  ∧ (∀ req, (app (POST_signin req) st).2 = st)
  ∧ (∀ email, (app (GET_profile email) st).2 = st).
Proof.
  repeat split.
  - intros email. apply reads_only_user_exists.
  - intros email. apply reads_only_read_user_record.
  - intros req. apply reads_only_signin.
  - intros email. apply reads_only_get_profile.
  - intros req. unfold app, serve. pose proof (reads_only_signin req st) as Hst.
    by destruct (signin req st).
  - intros email. unfold app, serve. pose proof (reads_only_get_profile email st) as Hst.
    by destruct (get_profile email st).
Qed.

(** A signup changes no path but the file of its own email. *)
Lemma signup_other_paths req salt st pc :
  pc ≠ user_file_client (SignupRequest.email req) →
  lookup_path pc (signup req salt st).2 = lookup_path pc st.
Proof.
  intros Hne. unfold signup, bind, lift, raise, ret.
  pose proof (reads_only_user_exists (SignupRequest.email req) st) as Hst.
  destruct (user_exists _ st) as [[[|]|?] st1]; simpl in Hst; subst st1; try done.
  destruct (hashpw _ salt) as [pw_hash|?]; [|done].
  fold (record_of req pw_hash).
  assert (Hw : lookup_path pc (write_user_record (record_of req pw_hash) st).2
               = lookup_path pc st).
  { unfold write_user_record, bind, lift.
    change (record_of req pw_hash !! "email") with (Some (SignupRequest.email req)).
    cbv beta iota zeta.
    unfold create_file, append_data, flush_data, request.
    repeat (case_match; simplify_eq; simpl;
            rewrite ?lookup_path_store_path_ne by done); done. }
  destruct (write_user_record _ st) as [[[]|?] st2]; simpl in *; done.
Qed.

(** A signup leaves every path that is present as it is: the file of its
    own email too, since it is refused when that file is present. *)
Lemma signup_keeps_present req salt st pc e :
  lookup_path pc st = Some e →
  lookup_path pc (signup req salt st).2 = Some e.
Proof.
  intros Hpc.
  destruct (decide (pc = user_file_client (SignupRequest.email req))) as [->|Hne].
  - destruct (reachable st) eqn:Hr.
    + rewrite signup_conflict by (rewrite ?Hpc; eauto). done.
    + assert (Hex : user_exists (SignupRequest.email req) st
                    = (Raise HttpResponseError, st)).
      { apply user_exists_propagates; [|done].
        unfold get_file_properties, request. by rewrite Hr. }
      unfold signup, bind. by rewrite Hex.
  - by rewrite signup_other_paths.
Qed.

Lemma app_keeps_present r st pc e :
  lookup_path pc st = Some e → lookup_path pc (app r st).2 = Some e.
Proof.
  intros Hpc. destruct r as [|req salt|req|email]; unfold app, serve.
  - done.
  - pose proof (signup_keeps_present req salt st pc e Hpc) as Hk.
    by destruct (signup req salt st).
  - pose proof (reads_only_signin req st) as Hst.
    destruct (signin req st). simpl in *. by subst.
  - pose proof (reads_only_get_profile email st) as Hst.
    destruct (get_profile email st). simpl in *. by subst.
Qed.

(** X4: no request changes or removes what the lake holds: a path that is
    present, a user's file with its content in particular, is the same
    after any sequence of requests.  A stored record is never overwritten,
    a second signup for its email included. *)
Theorem stored_files_never_change rs st pc e :
  lookup_path pc st = Some e →
  lookup_path pc (serve_all rs st) = Some e.
Proof.
  revert st. induction rs as [|r rs IH]; intros st Hpc; [done|].
  simpl. apply IH. by apply app_keeps_present.
Qed.

(** X5: a signup, whatever its outcome, changes at most the file of its
    own email: every other path of the lake, the file of every other email
    in particular, is after the signup what it was before (absent if it
    was absent). *)
Theorem signup_writes_own_file_only req salt st :
  (∀ pc, pc ≠ user_file_client (SignupRequest.email req) →
     lookup_path pc (signup req salt st).2 = lookup_path pc st)
  ∧ (∀ email, email ≠ SignupRequest.email req →
       lookup_path (user_file_client email) (signup req salt st).2
       = lookup_path (user_file_client email) st).
Proof.
  split.
  - intros pc. apply signup_other_paths.
  - intros email Hne. apply signup_other_paths.
    intros Heq. by apply user_file_client_inj in Heq.
Qed.

End MoreProperties.

(** ** Startup, outages and unreadable records *)

Section Failures.
Context `{!Bcrypt, !Json}.

(** X6: once [lifespan] has run on a reachable service, the file system
    and the directory are in place and stay in place whatever requests the
    application serves; so at any later point a signup for an email without
    a file, with a password bcrypt hashes, returns [{"ok": True}]. *)
Theorem lifespan_then_requests st0 st rs :
  reachable st0 = true →
  lifespan st0 = (Return tt, st) →
  reachable (serve_all rs st) = true
  ∧ is_Some (file_systems (serve_all rs st) !! FILE_SYSTEM_NAME)
  ∧ is_Some (lookup_path directory_client (serve_all rs st))
  ∧ (∀ req salt pw_hash,
       lookup_path (user_file_client (SignupRequest.email req)) (serve_all rs st) = None →
       hashpw (SignupRequest.password req) salt = Return pw_hash →
       (signup req salt (serve_all rs st)).1 = Return {[ "ok" := PBool true ]}).
Proof.
  intros Hr0 Hstart. unfold lifespan in Hstart.
  destruct (file_system_in_place st0 st rs Hr0 Hstart) as [Hr Hfs].
  split; [done|]. split; [done|]. split.
  - assert (Hdir : is_Some (lookup_path directory_client st)).
    { destruct (lookup_path directory_client st0) as [e|] eqn:Hdir0.
      - rewrite ensure_present in Hstart by (rewrite ?Hdir0; eauto).
        injection Hstart as <-. rewrite Hdir0. eauto.
      - revert Hstart.
        unfold ensure_filesystem_and_directory, bind, try_except, create_file_system,
          create_directory, request, ret.
        unfold lookup_path in Hdir0.
        change file_system_client with (pc_file_system directory_client).
        rewrite Hr0.
        destruct (file_systems st0 !! pc_file_system directory_client)
          as [paths|] eqn:Hfs0.
        + change (paths !! pc_path directory_client = None) in Hdir0.
          cbv beta iota zeta. rewrite decide_True by done.
          rewrite Hr0, Hfs0, Hdir0. cbv beta iota zeta. intros [= <-].
          rewrite lookup_path_store_path_eq; eauto.
        + cbv beta iota zeta.
          change (reachable (set_file_systems ?fs st0)) with (reachable st0).
          change (file_systems (set_file_systems ?fs st0)) with fs.
          rewrite Hr0, lookup_insert_eq, lookup_empty. cbv beta iota zeta.
          intros [= <-]. rewrite lookup_path_store_path_eq; [eauto|].
          change (file_systems (set_file_systems ?fs st0)) with fs.
          rewrite lookup_insert_eq. eauto. }
    clear Hstart Hr Hfs. revert st Hdir. induction rs as [|r rs IH]; intros st [e Hdir].
    + simpl. rewrite Hdir. eauto.
    + simpl. apply IH. rewrite (app_keeps_present r st _ e Hdir). eauto.
  - intros req salt pw_hash Hfile Hhash.
    by rewrite (signup_fresh req salt _ pw_hash).
Qed.

(** X7: [ensure_filesystem_and_directory] loses nothing: every path that is
    present before it runs, in any file system, is present with the same
    content after it, whatever it returns or raises; restarting the
    application leaves every stored record as it is. *)
Theorem ensure_filesystem_and_directory_keeps_paths st pc e :
  lookup_path pc st = Some e →
  lookup_path pc (ensure_filesystem_and_directory st).2 = Some e.
Proof.
  intros Hpc.
  unfold ensure_filesystem_and_directory, bind, try_except, create_file_system,
    create_directory, request, ret.
  change file_system_client with (pc_file_system directory_client).
  destruct (reachable st) eqn:Hr; [|by rewrite decide_False].
  destruct (file_systems st !! pc_file_system directory_client) as [paths|] eqn:Hfs.
  - cbv beta iota zeta. rewrite decide_True by done. rewrite Hr, Hfs.
    destruct (paths !! pc_path directory_client) as [d|] eqn:Hdir.
    + destruct (exclusive_create st); cbv beta iota zeta;
        rewrite ?decide_True by done; done.
    + cbv beta iota zeta. simpl.
      rewrite lookup_path_store_path_ne; [done|].
      intros <-. unfold lookup_path in Hpc. rewrite Hfs in Hpc.
      change (paths !! pc_path directory_client = Some e) in Hpc. congruence.
  - cbv beta iota zeta.
    change (reachable (set_file_systems ?fs st)) with (reachable st).
    change (file_systems (set_file_systems ?fs st)) with fs.
    rewrite Hr, lookup_insert_eq, lookup_empty. cbv beta iota zeta. simpl.
    assert (Hne : pc_file_system pc ≠ pc_file_system directory_client).
    { intros Heq. unfold lookup_path in Hpc. rewrite Heq, Hfs in Hpc. done. }
    rewrite lookup_path_store_path_ne by (intros <-; done).
    unfold lookup_path in *.
    change (file_systems (set_file_systems ?fs st)) with fs.
    by rewrite lookup_insert_ne.
Qed.

Lemma handlers_unreachable st :
  reachable st = false →
  (∀ req salt, signup req salt st = (Raise HttpResponseError, st))
  ∧ (∀ req, signin req st = (Raise HttpResponseError, st))
  ∧ (∀ email, get_profile email st = (Raise HttpResponseError, st)).
Proof.
  intros Hr.
  assert (Hread : ∀ email, read_user_record email st = (Raise HttpResponseError, st)).
  { intros email. unfold read_user_record, bind, download_file_readall, request.
    by rewrite Hr. }
  split; [|split].
  - intros req salt.
    assert (Hex : user_exists (SignupRequest.email req) st
                  = (Raise HttpResponseError, st)).
    { apply user_exists_propagates; [|done].
      unfold get_file_properties, request. by rewrite Hr. }
    unfold signup, bind. by rewrite Hex.
  - intros req. unfold signin, bind, try_except. rewrite Hread.
    by rewrite decide_False.
  - intros email. unfold get_profile, bind, try_except. rewrite Hread.
    by rewrite decide_False.
Qed.

(** X8: when the storage service cannot be reached, signup, signin and
    profile all end with the storage error itself, which the application
    answers with a bare 500: an outage is never reported as 400, 401 or
    404.  The lake is not changed, [lifespan] fails the same way, and
    [/health] still answers 200. *)
Theorem outage_is_500 st :
  reachable st = false →
  (∀ req salt, signup req salt st = (Raise HttpResponseError, st))
  ∧ (∀ req, signin req st = (Raise HttpResponseError, st))
  ∧ (∀ email, get_profile email st = (Raise HttpResponseError, st))
  ∧ (∀ r, r ≠ GET_health →
       app r st = ({| status := 500; content := PStr "Internal Server Error" |}, st))
  ∧ app GET_health st
    = ({| status := 200; content := PDict {[ "status" := PStr "ok" ]} |}, st)
  ∧ lifespan st = (Raise HttpResponseError, st).
Proof.
  intros Hr. destruct (handlers_unreachable st Hr) as (Hup & Hin & Hprof).
  split; [done|]. split; [done|]. split; [done|]. split; [|split; [done|]].
  - intros [|req salt|req|email] Hne; [done|..]; unfold app, serve.
    + by rewrite Hup.
    + by rewrite Hin.
    + by rewrite Hprof.
  - unfold lifespan, ensure_filesystem_and_directory, bind, try_except,
      create_file_system, request.
    rewrite Hr. by rewrite decide_False.
Qed.

(** X9: when the file of an email is there but cannot be used, signin and
    profile do not answer 401 or 404: an error of [json.loads] on its
    content (any but [ResourceNotFoundError]) propagates from both, and
    content that is JSON but not an object makes both fail with
    [AttributeError], at [stored.get]. *)
Theorem unreadable_record_propagates email st committed staged :
  reachable st = true →
  lookup_path (user_file_client email) st = Some (File committed staged) →
  (∀ e, loads committed = Raise e → e ≠ ResourceNotFoundError →
     (∀ password,
        signin {| SigninRequest.email := email; SigninRequest.password := password |} st
        = (Raise e, st))
     ∧ get_profile email st = (Raise e, st))
  ∧ (∀ v, loads committed = Return v → (∀ d, v ≠ PDict d) →
       (∀ password,
          signin {| SigninRequest.email := email; SigninRequest.password := password |} st
          = (Raise AttributeError, st))
       ∧ get_profile email st = (Raise AttributeError, st)).
Proof.
  intros Hr Hfile. split.
  - intros e Hloads Hne. split.
    + intros password. rewrite (signin_eval _ _ committed staged) by done.
      rewrite Hloads. by rewrite decide_False.
    + rewrite (get_profile_eval _ _ committed staged) by done.
      rewrite Hloads. by rewrite decide_False.
  - intros v Hloads Hv.
    assert (Hget : ∀ key default, get v key default = Raise AttributeError).
    { intros key default. destruct v; try done. by destruct (Hv d). }
    split.
    + intros password. rewrite (signin_eval _ _ committed staged) by done.
      by rewrite Hloads, Hget.
    + rewrite (get_profile_eval _ _ committed staged) by done.
      by rewrite Hloads, Hget.
Qed.

(** X10: a profile request for an email that has no file fails with
    [HTTPException(404, "Profile not found")], which the application sends
    as status 404 with the body [{"detail": "Profile not found"}], and
    leaves the lake as it was. *)
Theorem get_profile_unknown_email email st :
  reachable st = true →
  lookup_path (user_file_client email) st = None →
  get_profile email st = (Raise (HTTPException 404 "Profile not found"), st)
  ∧ app (GET_profile email) st
    = ({| status := 404; content := PDict {[ "detail" := PStr "Profile not found" ]} |},
       st).
Proof.
  intros Hr Hfile.
  assert (Hrun := get_profile_not_found email st Hr Hfile).
  split; [done|]. unfold app, serve. by rewrite Hrun.
Qed.

End Failures.

(** ** Writes, and what a success implies *)

Section Successes.
Context `{!Bcrypt, !Json}.

(** X12: a record written after another one for the same email replaces it
    whole: two writes in a row leave the lake exactly as the second write
    alone does, with no field of the first record left. *)
Theorem write_user_record_last_wins data1 data2 email st :
  reachable st = true →
  is_Some (file_systems st !! FILE_SYSTEM_NAME) →
  data1 !! "email" = Some email →
  data2 !! "email" = Some email →
  (write_user_record data1;;; write_user_record data2) st = write_user_record data2 st.
Proof.
  intros Hr Hfs H1 H2. unfold bind.
  rewrite (write_user_record_eval data1 email) by done.
  rewrite !(write_user_record_eval data2 email); try done.
  - by rewrite store_path_store_path.
  - by rewrite reachable_store_path.
  - by apply keeps_store_path.
Qed.

Lemma write_user_record_no_file_system data email st :
  reachable st = true →
  file_systems st !! FILE_SYSTEM_NAME = None →
  data !! "email" = Some email →
  write_user_record data st = (Raise ResourceNotFoundError, st).
Proof.
  intros Hr Hfs Hemail. unfold write_user_record, bind, lift. rewrite Hemail.
  unfold create_file, request. rewrite Hr.
  change (pc_file_system (user_file_client email)) with FILE_SYSTEM_NAME.
  by rewrite Hfs.
Qed.

(** X13: a signup that reaches the service before the file system exists
    finds no file for the email, hashes the password, and then fails with
    the [ResourceNotFoundError] of [create_file]; nothing is written. *)
Theorem signup_without_file_system req salt st pw_hash :
  reachable st = true →
  file_systems st !! FILE_SYSTEM_NAME = None →
  hashpw (SignupRequest.password req) salt = Return pw_hash →
  signup req salt st = (Raise ResourceNotFoundError, st)
  ∧ app (POST_signup req salt) st
    = ({| status := 500; content := PStr "Internal Server Error" |}, st).
Proof.
  intros Hr Hfs Hhash.
  assert (Hrun : signup req salt st = (Raise ResourceNotFoundError, st)).
  { unfold signup, bind. rewrite user_exists_eval by done.
    rewrite bool_decide_false.
    2:{ intros Hsome. apply lookup_path_is_Some in Hsome.
        change (pc_file_system (user_file_client (SignupRequest.email req)))
          with FILE_SYSTEM_NAME in Hsome.
        rewrite Hfs in Hsome. by destruct Hsome. }
    unfold lift. rewrite Hhash. fold (record_of req pw_hash).
    by rewrite (write_user_record_no_file_system _ (SignupRequest.email req)). }
  split; [done|]. unfold app, serve. by rewrite Hrun.
Qed.

Lemma signup_needs_file_system req salt st pw_hash b st' :
  reachable st = true →
  file_systems st !! FILE_SYSTEM_NAME = None →
  hashpw (SignupRequest.password req) salt = Return pw_hash →
  signup req salt st = (Return b, st') → False.
Proof.
  intros Hr Hfs Hhash Hrun.
  unfold signup, bind in Hrun. rewrite user_exists_eval in Hrun by done.
  rewrite bool_decide_false in Hrun.
  2:{ intros Hsome. apply lookup_path_is_Some in Hsome.
      change (pc_file_system (user_file_client (SignupRequest.email req)))
        with FILE_SYSTEM_NAME in Hsome.
      rewrite Hfs in Hsome. by destruct Hsome. }
  unfold lift in Hrun. rewrite Hhash in Hrun. fold (record_of req pw_hash) in Hrun.
  by rewrite (write_user_record_no_file_system _ (SignupRequest.email req)) in Hrun.
Qed.

(** X15: [signup] returns only after it has written: whenever it returns,
    the service was reachable, the email had no file, bcrypt returned a
    hash, and the lake differs from the one before by the file of the
    email alone, which holds the record with that hash. *)
Theorem signup_returns_only_after_writing req salt st b st' :
  signup req salt st = (Return b, st') →
  b = {[ "ok" := PBool true ]}
  ∧ reachable st = true
  ∧ lookup_path (user_file_client (SignupRequest.email req)) st = None
  ∧ ∃ pw_hash,
      hashpw (SignupRequest.password req) salt = Return pw_hash
      ∧ st' = store_path (user_file_client (SignupRequest.email req))
                (written (record_of req pw_hash)) st
      ∧ lookup_path (user_file_client (SignupRequest.email req)) st'
        = Some (written (record_of req pw_hash)).
Proof.
  intros Hrun. split; [by apply signup_returns in Hrun|].
  destruct (reachable st) eqn:Hr.
  2:{ destruct (handlers_unreachable st Hr) as (Hup & _). by rewrite Hup in Hrun. }
  split; [done|].
  destruct (lookup_path (user_file_client (SignupRequest.email req)) st) as [e|] eqn:Hfile.
  { rewrite signup_conflict in Hrun by (rewrite ?Hfile; eauto). done. }
  split; [done|].
  destruct (hashpw (SignupRequest.password req) salt) as [pw_hash|e] eqn:Hhash.
  2:{ unfold signup, bind in Hrun. rewrite user_exists_eval in Hrun by done.
      rewrite Hfile, bool_decide_false in Hrun by (by intros [? ?]).
      unfold lift in Hrun. by rewrite Hhash in Hrun. }
  exists pw_hash. split; [done|].
  destruct (file_systems st !! FILE_SYSTEM_NAME) as [paths|] eqn:Hfs.
  - rewrite (signup_fresh _ _ _ pw_hash) in Hrun by (rewrite ?Hfs; eauto).
    injection Hrun as _ <-. split; [done|].
    apply lookup_path_store_path_eq.
    change (pc_file_system (user_file_client (SignupRequest.email req)))
      with FILE_SYSTEM_NAME. rewrite Hfs. eauto.
  - destruct (signup_needs_file_system req salt st pw_hash b st' Hr Hfs Hhash Hrun).
Qed.

End Successes.

(** ** What the application never answers *)

Section Never.
Context `{!Bcrypt, !Json}.

Lemma read_user_record_directory email st :
  reachable st = true →
  lookup_path (user_file_client email) st = Some Directory →
  read_user_record email st = (Raise HttpResponseError, st).
Proof.
  intros Hr Hfile. unfold read_user_record, bind, download_file_readall, request.
  by rewrite Hr, Hfile.
Qed.

(** X16: [signin] hands out a token only for a verified password: whenever
    it returns, the service was reachable, the file of the email was there
    and held a JSON object, and [checkpw] returned [True] for the password
    of the request and the stored [password_hash]. *)
Theorem signin_returns_only_if_verified req st r st' :
  signin req st = (Return r, st') →
  reachable st = true
  ∧ ∃ committed staged d h stored_hash,
      lookup_path (user_file_client (SigninRequest.email req)) st
        = Some (File committed staged)
      ∧ loads committed = Return (PDict d)
      ∧ d !! "password_hash" = h
      ∧ encode (default (PStr "") h) = Return stored_hash
      ∧ checkpw (SigninRequest.password req) stored_hash = Return true.
Proof.
  intros Hrun.
  destruct (reachable st) eqn:Hr.
  2:{ destruct (handlers_unreachable st Hr) as (_ & Hin & _). by rewrite Hin in Hrun. }
  split; [done|].
  destruct (lookup_path (user_file_client (SigninRequest.email req)) st)
    as [[|committed staged]|] eqn:Hfile.
  - unfold signin, bind, try_except in Hrun.
    rewrite read_user_record_directory in Hrun by done.
    by rewrite decide_False in Hrun.
  - rewrite (signin_eval _ _ committed staged) in Hrun by done.
    destruct (loads committed) as [stored|e] eqn:Hloads; [|by case_decide].
    destruct stored as [| | | | |d]; try done.
    exists committed, staged, d, (d !! "password_hash").
    unfold get in Hrun.
    assert (Hdef : match d !! "password_hash" with
                   | Some x => x
                   | None => PStr ""
                   end = default (PStr "") (d !! "password_hash")).
    { by destruct (d !! "password_hash"). }
    rewrite Hdef in Hrun.
    destruct (encode _) as [stored_hash|?] eqn:Henc; [|done].
    exists stored_hash.
    destruct (checkpw _ stored_hash) as [[|]|?] eqn:Hcheck; try done.
  - by rewrite signin_not_found in Hrun.
Qed.

Lemma user_exists_no_http_exception email st :
  no_http_exception (user_exists email st).1.
Proof.
  intros c d. unfold user_exists, try_except, bind, get_file_properties, request, ret.
  repeat case_match; simplify_eq; simpl; done.
Qed.

Lemma write_user_record_no_http_exception data st :
  no_http_exception (write_user_record data st).1.
Proof.
  intros c d. unfold write_user_record, bind, lift.
  destruct (data !! "email") as [email|]; [|done].
  unfold create_file, append_data, flush_data, request.
  repeat case_match; simplify_eq; simpl; done.
Qed.

Lemma read_user_record_no_http_exception email st :
  (∀ s, no_http_exception (loads s)) →
  no_http_exception (read_user_record email st).1.
Proof.
  intros Hloads c d. unfold read_user_record, bind, download_file_readall, request, lift.
  repeat case_match; simplify_eq; simpl; try done. apply Hloads.
Qed.

Lemma signup_http_exception req salt st c d st' :
  (∀ p s, no_http_exception (hashpw p s)) →
  signup req salt st = (Raise (HTTPException c d), st') →
  c = 400 ∧ d = "User already exists".
Proof.
  intros Hhash. unfold signup, bind, lift, raise, ret.
  pose proof (user_exists_no_http_exception (SignupRequest.email req) st) as Hex.
  destruct (user_exists _ st) as [[[|]|e] st1]; simpl in Hex.
  - by intros [= <- <- _].
  - pose proof (Hhash (SignupRequest.password req) salt) as Hh.
    destruct (hashpw _ salt) as [pw_hash|e]; [|intros [= -> _]; by destruct (Hh c d)].
    match goal with
    | |- context [write_user_record ?data st1] =>
        pose proof (write_user_record_no_http_exception data st1) as Hw;
        destruct (write_user_record data st1) as [[[]|e] st2]; simpl in Hw
    end.
    + done.
    + intros [= -> _]. by destruct (Hw c d).
  - intros [= -> _]. by destruct (Hex c d).
Qed.

Lemma signin_http_exception req st c d st' :
  (∀ p h, no_http_exception (checkpw p h)) →
  (∀ s, no_http_exception (loads s)) →
  signin req st = (Raise (HTTPException c d), st') →
  c = 401 ∧ d = "Invalid credentials".
Proof.
  intros Hcheck Hloads. unfold signin, bind, try_except, lift, raise, ret.
  pose proof (read_user_record_no_http_exception (SigninRequest.email req) st Hloads)
    as Hread.
  destruct (read_user_record _ st) as [[stored|e] st1]; simpl in Hread.
  - destruct (get stored _ _) as [h|e] eqn:Hget.
    2:{ destruct stored; simpl in Hget; simplify_eq; by intros [=]. }
    destruct (encode h) as [stored_hash|e] eqn:Henc.
    2:{ destruct h; simpl in Henc; simplify_eq; by intros [=]. }
    pose proof (Hcheck (SigninRequest.password req) stored_hash) as Hc.
    destruct (checkpw _ stored_hash) as [[|]|e]; simpl.
    + done.
    + by intros [= <- <- _].
    + intros [= -> _]. by destruct (Hc c d).
  - destruct (decide (e = ResourceNotFoundError)).
    + by intros [= <- <- _].
    + intros [= -> _]. by destruct (Hread c d).
Qed.

Lemma get_profile_http_exception email st c d st' :
  (∀ s, no_http_exception (loads s)) →
  get_profile email st = (Raise (HTTPException c d), st') →
  c = 404 ∧ d = "Profile not found".
Proof.
  intros Hloads. unfold get_profile, bind, try_except, lift, raise.
  pose proof (read_user_record_no_http_exception email st Hloads) as Hread.
  destruct (read_user_record _ st) as [[record|e] st1]; simpl in Hread.
  - destruct (get record "name" _) as [name|e] eqn:Hname.
    2:{ destruct record; simpl in Hname; simplify_eq; by intros [=]. }
    destruct (get record "dob" _) as [dob|e] eqn:Hdob.
    2:{ destruct record; simpl in Hdob; simplify_eq; by intros [=]. }
    unfold ProfileResponse.init. repeat case_match; by intros [=].
  - destruct (decide (e = ResourceNotFoundError)).
    + by intros [= <- <- _].
    + intros [= -> _]. by destruct (Hread c d).
Qed.

(** X14: the application has exactly three error messages of its own.
    With libraries that raise no [HTTPException], every answer is a 200, a
    bare 500, or one of: 400 with ["User already exists"], from signup
    only; 401 with ["Invalid credentials"], from signin only; 404 with
    ["Profile not found"], from profile only. *)
Theorem error_responses_are_fixed r st :
  (∀ p s, no_http_exception (hashpw p s)) →
  (∀ p h, no_http_exception (checkpw p h)) →
  (∀ s, no_http_exception (loads s)) →
  status (app r st).1 = 200
  ∨ (app r st).1 = {| status := 500; content := PStr "Internal Server Error" |}
  ∨ ((∃ req salt, r = POST_signup req salt)
     ∧ (app r st).1
       = {| status := 400; content := PDict {[ "detail" := PStr "User already exists" ]} |})
  ∨ ((∃ req, r = POST_signin req)
     ∧ (app r st).1
       = {| status := 401; content := PDict {[ "detail" := PStr "Invalid credentials" ]} |})
  ∨ ((∃ email, r = GET_profile email)
     ∧ (app r st).1
       = {| status := 404; content := PDict {[ "detail" := PStr "Profile not found" ]} |}).
Proof.
  intros Hhash Hcheck Hloads.
  destruct r as [|req salt|req|email]; unfold app, serve.
  - by left.
  - destruct (signup req salt st) as [[b|e] st'] eqn:Hrun; [by left|].
    destruct e; try (right; left; done).
    apply signup_http_exception in Hrun as [-> ->]; [|done].
    right; right; left. eauto.
  - destruct (signin req st) as [[b|e] st'] eqn:Hrun; [by left|].
    destruct e; try (right; left; done).
    apply signin_http_exception in Hrun as [-> ->]; [|done..].
    right; right; right; left. eauto.
  - destruct (get_profile email st) as [[b|e] st'] eqn:Hrun; [by left|].
    destruct e; try (right; left; done).
    apply get_profile_http_exception in Hrun as [-> ->]; [|done].
    right; right; right; right. eauto.
Qed.

End Never.

(** ** The properties above, on concrete lakes *)

Lemma demo_hashpw_no_http_exception p s : no_http_exception (Demo.hashpw p s).
Proof. intros c d. unfold Demo.hashpw. by case_match. Qed.

Lemma demo_checkpw_no_http_exception p h : no_http_exception (Demo.checkpw p h).
Proof.
  intros c d. unfold Demo.checkpw.
  pose proof (demo_hashpw_no_http_exception p h c d) as Hh.
  destruct (Demo.hashpw p h) as [h0|e]; [done|].
  intros [= ->]. by apply Hh.
Qed.

Lemma demo_loads_no_http_exception s : no_http_exception (Demo.loads s).
Proof. intros c d. unfold Demo.loads. by repeat case_match. Qed.

Lemma stored_files_never_change_witness :
  lookup_path (user_file_client "a@x.com")
    (@serve_all Demo.bcrypt Demo.json Cases.requests Demo.lake_ann)
  = Some (@written Demo.json (record_of Demo.ann Demo.ann_hash)).
Proof.
  apply (@stored_files_never_change Demo.bcrypt Demo.json Cases.requests Demo.lake_ann).
  vm_compute. reflexivity.
Defined.

Lemma signup_writes_own_file_only_witness :
  lookup_path (user_file_client "a@x.com")
    (@signup Demo.bcrypt Demo.json Cases.bob Demo.salt Demo.lake_ann).2
  = lookup_path (user_file_client "a@x.com") Demo.lake_ann.
Proof.
  apply (proj2 (@signup_writes_own_file_only Demo.bcrypt Demo.json Cases.bob Demo.salt
                  Demo.lake_ann)).
  discriminate.
Defined.

Lemma lifespan_then_requests_witness :
  reachable (@serve_all Demo.bcrypt Demo.json Cases.requests (lifespan Demo.fresh_account).2)
  = true
  ∧ is_Some (file_systems
               (@serve_all Demo.bcrypt Demo.json Cases.requests
                  (lifespan Demo.fresh_account).2) !! FILE_SYSTEM_NAME)
  ∧ is_Some (lookup_path directory_client
               (@serve_all Demo.bcrypt Demo.json Cases.requests
                  (lifespan Demo.fresh_account).2))
  ∧ (∀ req salt pw_hash,
       lookup_path (user_file_client (SignupRequest.email req))
         (@serve_all Demo.bcrypt Demo.json Cases.requests (lifespan Demo.fresh_account).2)
       = None →
       Demo.hashpw (SignupRequest.password req) salt = Return pw_hash →
       (@signup Demo.bcrypt Demo.json req salt
          (@serve_all Demo.bcrypt Demo.json Cases.requests
             (lifespan Demo.fresh_account).2)).1
       = Return {[ "ok" := PBool true ]}).
Proof.
  apply (@lifespan_then_requests Demo.bcrypt Demo.json Demo.fresh_account
           (lifespan Demo.fresh_account).2 Cases.requests).
  - reflexivity.
  - vm_compute. reflexivity.
Defined.

Lemma ensure_filesystem_and_directory_keeps_paths_witness :
  lookup_path {| pc_file_system := "backups"; pc_path := "users/a@x.com.json" |}
    (ensure_filesystem_and_directory Cases.lake_shared).2
  = Some (File "kept" "staged").
Proof.
  apply (ensure_filesystem_and_directory_keeps_paths Cases.lake_shared).
  reflexivity.
Defined.

Lemma outage_is_500_witness :
  @signup Demo.bcrypt Demo.json Cases.bob Demo.salt Cases.lake_down
  = (Raise HttpResponseError, Cases.lake_down)
  ∧ @signin Demo.bcrypt Demo.json Demo.ann_signin Cases.lake_down
    = (Raise HttpResponseError, Cases.lake_down)
  ∧ @get_profile Demo.json "a@x.com" Cases.lake_down
    = (Raise HttpResponseError, Cases.lake_down).
Proof.
  destruct (@outage_is_500 Demo.bcrypt Demo.json Cases.lake_down eq_refl)
    as (Hup & Hin & Hprof & _).
  split; [apply Hup|]. split; [apply Hin|apply Hprof].
Defined.

Lemma unreadable_record_propagates_witness :
  @signin Demo.bcrypt Demo.json
    {| SigninRequest.email := "g@x.com"; SigninRequest.password := "secret1" |}
    Cases.lake_garbled
  = (Raise (ValueError "Expecting value"), Cases.lake_garbled)
  ∧ @get_profile Demo.json "g@x.com" Cases.lake_garbled
    = (Raise (ValueError "Expecting value"), Cases.lake_garbled).
Proof.
  destruct (proj1 (@unreadable_record_propagates Demo.bcrypt Demo.json "g@x.com"
                     Cases.lake_garbled "not json" "" eq_refl eq_refl)
              (ValueError "Expecting value") eq_refl) as [Hin Hprof]; [discriminate|].
  split; [apply Hin|apply Hprof].
Defined.

Lemma get_profile_unknown_email_witness :
  @get_profile Demo.json "nobody@x.com" Demo.lake_ann
  = (Raise (HTTPException 404 "Profile not found"), Demo.lake_ann)
  ∧ @app Demo.bcrypt Demo.json (GET_profile "nobody@x.com") Demo.lake_ann
    = ({| status := 404; content := PDict {[ "detail" := PStr "Profile not found" ]} |},
       Demo.lake_ann).
Proof.
  apply (@get_profile_unknown_email Demo.bcrypt Demo.json "nobody@x.com" Demo.lake_ann).
  - reflexivity.
  - vm_compute. reflexivity.
Defined.

Lemma signin_after_signup_witness :
  (@signin Demo.bcrypt Demo.json Demo.ann_signin
     (@signup Demo.bcrypt Demo.json Demo.ann Demo.salt Demo.lake).2).1
  = Return {| SigninResponse.token := "dummy-token-for-a@x.com" |}.
Proof.
  apply (@signin_after_signup Demo.bcrypt Demo.json Demo.ann Demo.salt Demo.lake
           Demo.ann_hash true).
  - reflexivity.
  - vm_compute. eauto.
  - reflexivity.
  - reflexivity.
  - vm_compute. reflexivity.
  - vm_compute. reflexivity.
Defined.

Lemma write_user_record_last_wins_witness :
  (@write_user_record Demo.json (record_of Demo.ann "first");;;
   @write_user_record Demo.json (record_of Demo.ann "second")) Demo.lake
  = @write_user_record Demo.json (record_of Demo.ann "second") Demo.lake.
Proof.
  apply (@write_user_record_last_wins Demo.json (record_of Demo.ann "first")
           (record_of Demo.ann "second") "a@x.com" Demo.lake).
  - reflexivity.
  - vm_compute. eauto.
  - reflexivity.
  - reflexivity.
Defined.

Lemma signup_without_file_system_witness :
  @signup Demo.bcrypt Demo.json Demo.ann Demo.salt Demo.fresh_account
  = (Raise ResourceNotFoundError, Demo.fresh_account)
  ∧ @app Demo.bcrypt Demo.json (POST_signup Demo.ann Demo.salt) Demo.fresh_account
    = ({| status := 500; content := PStr "Internal Server Error" |}, Demo.fresh_account).
Proof.
  apply (@signup_without_file_system Demo.bcrypt Demo.json Demo.ann Demo.salt
           Demo.fresh_account Demo.ann_hash); reflexivity.
Defined.

Lemma error_responses_are_fixed_witness :
  status (@app Demo.bcrypt Demo.json (POST_signin Demo.ann_wrong) Demo.lake_ann).1 = 200
  ∨ (@app Demo.bcrypt Demo.json (POST_signin Demo.ann_wrong) Demo.lake_ann).1
    = {| status := 500; content := PStr "Internal Server Error" |}
  ∨ ((∃ req salt, POST_signin Demo.ann_wrong = POST_signup req salt)
     ∧ (@app Demo.bcrypt Demo.json (POST_signin Demo.ann_wrong) Demo.lake_ann).1
       = {| status := 400; content := PDict {[ "detail" := PStr "User already exists" ]} |})
  ∨ ((∃ req, POST_signin Demo.ann_wrong = POST_signin req)
     ∧ (@app Demo.bcrypt Demo.json (POST_signin Demo.ann_wrong) Demo.lake_ann).1
       = {| status := 401; content := PDict {[ "detail" := PStr "Invalid credentials" ]} |})
  ∨ ((∃ email, POST_signin Demo.ann_wrong = GET_profile email)
     ∧ (@app Demo.bcrypt Demo.json (POST_signin Demo.ann_wrong) Demo.lake_ann).1
       = {| status := 404; content := PDict {[ "detail" := PStr "Profile not found" ]} |}).
Proof.
  apply (@error_responses_are_fixed Demo.bcrypt Demo.json (POST_signin Demo.ann_wrong)
           Demo.lake_ann).
  - apply demo_hashpw_no_http_exception.
  - apply demo_checkpw_no_http_exception.
  - apply demo_loads_no_http_exception.
Defined.

Lemma signup_returns_only_after_writing_witness :
  ({[ "ok" := PBool true ]} : gmap string pyval) = {[ "ok" := PBool true ]}
  ∧ reachable Demo.lake = true
  ∧ lookup_path (user_file_client "a@x.com") Demo.lake = None
  ∧ ∃ pw_hash,
      Demo.hashpw "secret1" Demo.salt = Return pw_hash
      ∧ Demo.lake_ann
        = store_path (user_file_client "a@x.com")
            (@written Demo.json (record_of Demo.ann pw_hash)) Demo.lake
      ∧ lookup_path (user_file_client "a@x.com") Demo.lake_ann
        = Some (@written Demo.json (record_of Demo.ann pw_hash)).
Proof.
  apply (@signup_returns_only_after_writing Demo.bcrypt Demo.json Demo.ann Demo.salt
           Demo.lake {[ "ok" := PBool true ]} Demo.lake_ann).
  vm_compute. reflexivity.
Defined.

Lemma signin_returns_only_if_verified_witness :
  reachable Demo.lake_ann = true
  ∧ ∃ committed staged d h stored_hash,
      lookup_path (user_file_client "a@x.com") Demo.lake_ann
        = Some (File committed staged)
      ∧ Demo.loads committed = Return (PDict d)
      ∧ d !! "password_hash" = h
      ∧ encode (default (PStr "") h) = Return stored_hash
      ∧ Demo.checkpw "secret1" stored_hash = Return true.
Proof.
  apply (@signin_returns_only_if_verified Demo.bcrypt Demo.json Demo.ann_signin
           Demo.lake_ann {| SigninResponse.token := "dummy-token-for-a@x.com" |}
           Demo.lake_ann).
  vm_compute. reflexivity.
Defined.

(** ** Where the libraries' errors show *)

(** C1 (as first stated, refuted): a valid payload for an email without a
    file, on a reachable service with the file system in place, whose
    73-byte password a bcrypt with the 72-byte bound refuses to hash: the
    signup does not return, it ends with bcrypt's [ValueError] (sent as a
    bare 500), and nothing is written. *)
Lemma signup_long_password_counterexample :
  String.length (SignupRequest.password Bounded.dee) = 73%nat
  ∧ reachable Demo.lake = true
  ∧ is_Some (file_systems Demo.lake !! FILE_SYSTEM_NAME)
  ∧ lookup_path (user_file_client (SignupRequest.email Bounded.dee)) Demo.lake = None
  ∧ @signup Bounded.bcrypt Demo.json Bounded.dee Demo.salt Demo.lake
    = (Raise (ValueError Bounded.TOO_LONG), Demo.lake)
  ∧ @app Bounded.bcrypt Demo.json (POST_signup Bounded.dee Demo.salt) Demo.lake
    = ({| status := 500; content := PStr "Internal Server Error" |}, Demo.lake).
Proof.
  split; [reflexivity|]. split; [reflexivity|].
  split; [vm_compute; eauto|]. split; [reflexivity|].
  split; vm_compute; reflexivity.
Qed.

